(** * The self-updating entrypoints of panel_new

    Two shell programs supervise the application and follow a git checkout:

    - [docker/git-entrypoint.sh] (module [GitEntrypoint] below): clones or
      fetches under a [flock], compares [HEAD] with the remote-tracking ref,
      keeps a digest of [requirements.txt] in [.req.hash], and signals the
      application from a background watcher while the script itself sits in
      [wait];
    - the entrypoint with the [AUTOGIT_*] settings, the last document of
      [Dockerfile] (module [Embedded] below): modes [off], [update] and
      [watch], a polling loop that restarts the application in-process.

    Both are embedded as functions in a small monad over the part of the
    machine they touch (the checkout, two marker files, a few shell
    variables).  External commands take their outcome from an [oracle]; what
    a run does is recorded as a list of [event]s. *)

From Stdlib Require Import String List Bool Arith Lia Relations.
Import ListNotations.
Open Scope string_scope.
Open Scope list_scope.

Infix "+++" := String.append (at level 60, right associativity).

(** ** Events, machine state, outcomes of external commands *)

Inductive signal := SIGTERM | SIGKILL.

Inductive event :=
| Log (line : string)                  (* a line the script itself prints *)
| GitSetUrl                            (* git remote set-url origin URL *)
| GitClone (ok : bool)                 (* git clone --depth 1 ... *)
| GitFetch (ok : bool)                 (* git fetch ... *)
| GitReset (target : string) (ok : bool) (* git reset --hard target *)
| Pip (ok shown : bool)                (* pip install -r requirements.txt;
                                          [shown]: its output is not discarded *)
| WriteHash (digest : string)          (* echo -n digest > .req.hash *)
| Flock                                (* flock 9 returned: lock acquired *)
| Funlock                              (* descriptor 9 closed: lock released *)
| Kill (sig : signal) (pid : nat)      (* kill -SIG pid *)
| Reaped (pid : nat)                   (* wait pid returned *)
| Spawn (pid : nat)                    (* command started in the background *)
| Exec.                                (* exec of the application succeeded *)

(** The checkout and the shell variables.  A ref that [git rev-parse] cannot
    resolve is [None]; a file that does not exist is [None]. *)
Record state := mkState {
  git_dir      : bool;            (* [[ -d .git ]] *)
  HEAD         : option string;   (* git rev-parse HEAD *)
  tracking     : option string;   (* git rev-parse <remote>/<branch> *)
  requirements : option string;   (* sha256sum of requirements.txt *)
  req_hash     : option string;   (* contents of .req.hash *)
  pid_file     : option nat;      (* contents of /tmp/app.pid *)
  PREV         : string;          (* $PREV *)
  APP_PID      : nat;             (* $APP_PID *)
  last_pid     : nat;             (* the pid most recently handed out *)
  repo_ok      : bool             (* git accepts the directory as a
                                     repository; when it does not, a failing
                                     git rev-parse prints nothing *)
}.

Definition set_git_dir (b : bool) (s : state) : state :=
  mkState b (HEAD s) (tracking s) (requirements s) (req_hash s) (pid_file s)
          (PREV s) (APP_PID s) (last_pid s) (repo_ok s).
Definition set_HEAD (h : option string) (s : state) : state :=
  mkState (git_dir s) h (tracking s) (requirements s) (req_hash s) (pid_file s)
          (PREV s) (APP_PID s) (last_pid s) (repo_ok s).
Definition set_tracking (h : option string) (s : state) : state :=
  mkState (git_dir s) (HEAD s) h (requirements s) (req_hash s) (pid_file s)
          (PREV s) (APP_PID s) (last_pid s) (repo_ok s).
Definition set_requirements (d : option string) (s : state) : state :=
  mkState (git_dir s) (HEAD s) (tracking s) d (req_hash s) (pid_file s)
          (PREV s) (APP_PID s) (last_pid s) (repo_ok s).
Definition set_req_hash (d : option string) (s : state) : state :=
  mkState (git_dir s) (HEAD s) (tracking s) (requirements s) d (pid_file s)
          (PREV s) (APP_PID s) (last_pid s) (repo_ok s).
Definition set_pid_file (p : option nat) (s : state) : state :=
  mkState (git_dir s) (HEAD s) (tracking s) (requirements s) (req_hash s) p
          (PREV s) (APP_PID s) (last_pid s) (repo_ok s).
Definition set_PREV (v : string) (s : state) : state :=
  mkState (git_dir s) (HEAD s) (tracking s) (requirements s) (req_hash s)
          (pid_file s) v (APP_PID s) (last_pid s) (repo_ok s).
Definition set_APP_PID (p : nat) (s : state) : state :=
  mkState (git_dir s) (HEAD s) (tracking s) (requirements s) (req_hash s)
          (pid_file s) (PREV s) p (last_pid s) (repo_ok s).
Definition set_last_pid (p : nat) (s : state) : state :=
  mkState (git_dir s) (HEAD s) (tracking s) (requirements s) (req_hash s)
          (pid_file s) (PREV s) (APP_PID s) p (repo_ok s).
Definition set_repo_ok (b : bool) (s : state) : state :=
  mkState (git_dir s) (HEAD s) (tracking s) (requirements s) (req_hash s)
          (pid_file s) (PREV s) (APP_PID s) (last_pid s) b.

(** What the outside world does during one polling period. *)
Record oracle := mkOracle {
  remote       : option string;
    (* [Some h]: the network operation (fetch, clone) succeeds and the remote
       branch is at commit [h]; [None]: it fails *)
  reset_ok     : bool;            (* git reset --hard succeeds *)
  tree_requirements : option string;
    (* digest of requirements.txt in the tree a successful reset or clone
       checks out *)
  pip_ok       : bool;            (* pip install exits 0 *)
  child_exits  : bool;
    (* the running child has exited, or exits once it gets SIGTERM, so that
       [wait] on it returns *)
  outside_HEAD : option (option string)
    (* [Some h]: another actor sharing the checkout moved HEAD to [h] while
       the supervisor slept *)
}.

(** ** The shell monad *)

Inductive res (A : Type) :=
| Ret (a : A) (s : state)        (* the command returned *)
| Blocked (s : state)            (* it never returns (wait on a live child) *)
| Exited (code : nat) (s : state). (* the shell process is over *)
Arguments Ret {A} a s.
Arguments Blocked {A} s.
Arguments Exited {A} code s.

Definition Sh (A : Type) : Type := state -> list event * res A.

Definition ret {A} (a : A) : Sh A := fun s => ([], Ret a s).

Definition bind {A B} (m : Sh A) (k : A -> Sh B) : Sh B :=
  fun s =>
    match m s with
    | (t, Ret a s') => let (t', r) := k a s' in (t ++ t', r)
    | (t, Blocked s') => (t, Blocked s')
    | (t, Exited c s') => (t, Exited c s')
    end.

Notation "x <- m ;; k" := (bind m (fun x => k))
  (at level 61, m at next level, right associativity).
Notation "m ;; k" := (bind m (fun _ => k))
  (at level 61, right associativity).

Definition get {A} (f : state -> A) : Sh A := fun s => ([], Ret (f s) s).
Definition modify (f : state -> state) : Sh unit := fun s => ([], Ret tt (f s)).
Definition emit (e : event) : Sh unit := fun s => ([e], Ret tt s).
Definition block {A} : Sh A := fun s => ([], Blocked s).
Definition exit {A} (code : nat) : Sh A := fun s => ([], Exited code s).

Definition trace {A} (x : list event * res A) : list event := fst x.
Definition result {A} (x : list event * res A) : res A := snd x.

Definition final {A} (r : res A) : state :=
  match r with Ret _ s | Blocked s | Exited _ s => s end.

(** [cmd || true] *)
Definition or_true (c : Sh nat) : Sh nat := _ <- c ;; ret 0.

(** A simple command under [set -e]: a non-zero status ends the shell, unless
    the command runs where bash ignores [-e] ([errexit = false]). *)
Definition simple (errexit : bool) (c : Sh nat) : Sh nat :=
  st <- c ;;
  if errexit && negb (Nat.eqb st 0) then exit st else ret st.

(** ** External commands *)

Definition git_fetch (o : oracle) : Sh nat :=
  match remote o with
  | Some h => emit (GitFetch true) ;; modify (set_tracking (Some h)) ;; ret 0
  | None => emit (GitFetch false) ;; ret 1
  end.

(** [git reset --hard target]; [commit] is what [target] resolves to. *)
Definition git_reset_hard (target : string) (commit : option string)
    (o : oracle) : Sh nat :=
  match commit with
  | Some c =>
      if reset_ok o
      then emit (GitReset target true) ;;
           modify (set_HEAD (Some c)) ;;
           modify (set_requirements (tree_requirements o)) ;;
           ret 0
      else emit (GitReset target false) ;; ret 1
  | None => emit (GitReset target false) ;; ret 128
  end.

(** The line feed. *)
Definition newline : string :=
  String (Ascii.Ascii false true false true false false false false)
         EmptyString.

(** [$(git rev-parse name || echo fallback)].  For a ref it resolves, git
    prints the commit id.  For one it cannot resolve in a repository it
    accepts, git prints the name as given before it fails, so the value is
    the name, a line feed and the fallback.  Where git does not accept the
    directory as a repository it prints nothing and the value is the
    fallback alone. *)
Definition rev_parse_or (name : string) (ref : state -> option string)
    (fallback : string) : Sh string :=
  r <- get ref ;;
  match r with
  | Some c => ret c
  | None =>
      ok <- get repo_ok ;;
      if ok then ret (name +++ newline +++ fallback) else ret fallback
  end.

Definition pip_install (o : oracle) (shown : bool) : Sh nat :=
  emit (Pip (pip_ok o) shown) ;; ret (if pip_ok o then 0 else 1).

Definition kill (sig : signal) (pid : nat) : Sh nat :=
  emit (Kill sig pid) ;; ret 0.

(** [wait pid] returns only when the child is gone. *)
Definition wait (pid : nat) (o : oracle) : Sh nat :=
  if child_exits o then emit (Reaped pid) ;; ret 0 else block.

(** [cmd & APP_PID=$!] *)
Definition spawn_app : Sh unit :=
  p <- get last_pid ;;
  emit (Spawn (S p)) ;;
  modify (set_last_pid (S p)) ;;
  modify (set_APP_PID (S p)).

(** [sleep]: the period during which the outside world acts. *)
Definition sleep (o : oracle) : Sh nat :=
  match outside_HEAD o with
  | Some h => modify (set_HEAD h) ;; ret 0
  | None => ret 0
  end.

(** How the application command behaves when it is started. *)
Inductive launch := Started | NotFound | NotExecutable.

Definition launch_status (l : launch) : nat :=
  match l with Started => 0 | NotFound => 127 | NotExecutable => 126 end.

Record app := mkApp {
  starts   : launch;       (* can the command be executed at all *)
  own_exit : option nat;   (* its exit status if it ends by itself *)
  on_TERM  : option nat    (* its wait status if SIGTERM ends it; [None]: it
                              keeps running *)
}.

(** ** The entrypoint with modes [off | update | watch] ([Dockerfile], last
    document) *)

Module Embedded.

Record config := mkConfig {
  APP_CMD : string;   (* "${APP_CMD[*]}" *)
  BRANCH  : string;   (* AUTOGIT_BRANCH, default main *)
  REMOTE  : string;   (* AUTOGIT_REMOTE, default origin *)
  MODE    : string    (* AUTOGIT_MODE, default update *)
}.

Section Script.

Variable cfg : config.

(** [log(){ echo "[$(date +%H:%M:%S)] [git] $*"; }], without the clock. *)
Definition log (msg : string) : Sh unit := emit (Log ("[git] " +++ msg)).

(** [run_app]: [exec] replaces the shell by the application.  When the
    command cannot be executed the non-interactive shell ends with 127 or
    126. *)
Definition run_app (a : app) : Sh unit :=
  log ("start app: " +++ APP_CMD cfg) ;;
  match starts a with
  | Started =>
      emit Exec ;;
      match own_exit a with Some c => exit c | None => block end
  | l => exit (launch_status l)
  end.

Definition current_head : Sh string := rev_parse_or "HEAD" HEAD "none".
Definition origin_head : Sh string :=
  rev_parse_or (REMOTE cfg +++ "/" +++ BRANCH cfg) tracking "none".

Definition install_deps (o : oracle) : Sh unit :=
  req <- get requirements ;;
  match req with
  | Some _ =>
      log "installing requirements..." ;;
      _ <- or_true (pip_install o false) ;;
      ret tt
  | None => ret tt
  end.

(** Body of the loop when [MODE = update]. *)
Definition update_branch (o : oracle) : Sh unit :=
  _ <- or_true (git_fetch o) ;;
  NEW <- origin_head ;;
  prev <- get PREV ;;
  if negb (String.eqb NEW prev) && negb (String.eqb NEW "none") then
    log ("update: " +++ prev +++ " -> " +++ NEW) ;;
    tr <- get tracking ;;
    _ <- or_true (git_reset_hard NEW tr o) ;;
    install_deps o ;;
    pid <- get APP_PID ;;
    _ <- or_true (kill SIGTERM pid) ;;
    _ <- or_true (wait pid o) ;;
    spawn_app ;;
    modify (set_PREV NEW)
  else ret tt.

(** Body of the loop in any other mode (watch-only). *)
Definition watch_branch (o : oracle) : Sh unit :=
  NEW <- current_head ;;
  prev <- get PREV ;;
  if negb (String.eqb NEW prev) then
    log ("detected change: " +++ prev +++ " -> " +++ NEW +++ " (watch-only)") ;;
    install_deps o ;;
    pid <- get APP_PID ;;
    _ <- or_true (kill SIGTERM pid) ;;
    _ <- or_true (wait pid o) ;;
    spawn_app ;;
    modify (set_PREV NEW)
  else ret tt.

(** One iteration of [while sleep "$POLL"; do ... done], after the sleep. *)
Definition tick (o : oracle) : Sh unit :=
  if String.eqb (MODE cfg) "update" then update_branch o else watch_branch o.

(** One polling period: the sleep, then the body. *)
Definition period (o : oracle) : Sh unit := _ <- sleep o ;; tick o.

(** The loop over the polling periods given by [ticks]; when they are used
    up the supervisor is still in the loop, asleep. *)
Fixpoint poll (ticks : list oracle) : Sh unit :=
  match ticks with
  | [] => ret tt
  | o :: rest => period o ;; poll rest
  end.

(** The whole script.  [a] is the application command. *)
Definition main (a : app) (ticks : list oracle) : Sh unit :=
  if String.eqb (MODE cfg) "off" then run_app a
  else
    gd <- get git_dir ;;
    if negb gd
    then log "no .git here -> running app without watcher" ;; run_app a
    else
      spawn_app ;;
      p <- current_head ;;
      modify (set_PREV p) ;;
      log ("mode=" +++ MODE cfg +++ " prev=" +++ p +++ " branch=" +++ BRANCH cfg) ;;
      poll ticks.

End Script.

End Embedded.

(** ** [docker/git-entrypoint.sh] *)

Module GitEntrypoint.

Record config := mkConfig {
  APP_DIR     : string;
  REPO_URL    : string;
  REPO_BRANCH : string;
  CMD         : string    (* "$*" *)
}.

Section Script.

Variable cfg : config.

Definition echo (line : string) : Sh unit := emit (Log line).

(** [install_reqs].  [errexit] tells whether [set -e] is in force where the
    function is called. *)
Definition install_reqs (errexit : bool) (o : oracle) : Sh nat :=
  req <- get requirements ;;
  match req with
  | Some cur =>
      stored <- get req_hash ;;
      if match stored with
         | None => true
         | Some h => negb (String.eqb cur h)
         end
      then
        echo "[deps] installing requirements..." ;;
        _ <- simple errexit (pip_install o true) ;;
        emit (WriteHash cur) ;;
        modify (set_req_hash (Some cur)) ;;
        ret 0
      else ret 0
  | None => ret 0
  end.

Definition git_clone (o : oracle) : Sh nat :=
  match remote o with
  | Some h =>
      emit (GitClone true) ;;
      modify (set_git_dir true) ;;
      modify (set_repo_ok true) ;;
      modify (set_HEAD (Some h)) ;;
      modify (set_tracking (Some h)) ;;
      modify (set_requirements (tree_requirements o)) ;;
      ret 0
  | None => emit (GitClone false) ;; ret 128
  end.

Definition git_remote_set_url : Sh nat := emit GitSetUrl ;; ret 0.

(** [flock 9] and the end of the [{ ...; } 9>/.gitpull.lock] group. *)
Definition flock : Sh unit := emit Flock.
Definition funlock : Sh unit := emit Funlock.

(** [update_repo_once]; the value is its return status. *)
Definition update_repo_once (errexit : bool) (o : oracle) : Sh nat :=
  if String.eqb (REPO_URL cfg) "" then ret 0
  else
    gd <- get git_dir ;;
    if negb gd then
      echo ("[git] clone " +++ REPO_URL cfg +++ " (branch " +++ REPO_BRANCH cfg
            +++ ") into " +++ APP_DIR cfg) ;;
      _ <- simple errexit (git_clone o) ;;
      _ <- install_reqs errexit o ;;
      ret 1
    else
      flock ;;
      _ <- or_true git_remote_set_url ;;
      _ <- or_true (git_fetch o) ;;
      LOCAL <- rev_parse_or "HEAD" HEAD "0" ;;
      REMOTE <- rev_parse_or ("origin/" +++ REPO_BRANCH cfg) tracking "1" ;;
      if negb (String.eqb LOCAL REMOTE) then
        echo ("[git] update: " +++ LOCAL +++ " -> " +++ REMOTE) ;;
        tr <- get tracking ;;
        _ <- or_true (git_reset_hard ("origin/" +++ REPO_BRANCH cfg) tr o) ;;
        _ <- install_reqs errexit o ;;
        funlock ;;
        ret 1
      else
        funlock ;;
        ret 0.

(** [wait "$APP_PID"] returns [st]; it is the script's last command. *)
Definition finish (st : nat) : Sh unit :=
  pid <- get APP_PID ;;
  emit (Reaped pid) ;;
  exit st.

(** One period of the watcher: the sleep, then the check. *)
Definition check (o : oracle) : Sh nat :=
  _ <- sleep o ;; update_repo_once false o.

(** The watcher subshell and the script's final [wait], which run side by
    side, over the polling periods [ticks] during which the application is
    alive.  [update_repo_once] is the condition of an [if], and line 50 calls
    it on the left of [||]: in both places bash ignores [-e] for the whole
    body of the function, hence [errexit = false]. *)
Fixpoint supervise (a : app) (ticks : list oracle) : Sh unit :=
  match starts a with
  | Started =>
      match ticks with
      | [] =>
          match own_exit a with
          | Some st => finish st
          | None => block
          end
      | o :: rest =>
          rc <- check o ;;
          if Nat.eqb rc 0 then supervise a rest
          else
            echo "[git] changes detected -> terminating app for restart" ;;
            pf <- get pid_file ;;
            let target := match pf with Some p => p | None => 0 end in
            _ <- or_true (kill SIGTERM target) ;;
            pid <- get APP_PID ;;
            match on_TERM a with
            | Some st => if Nat.eqb target pid then finish st
                         else supervise a rest
            | None => supervise a rest
            end
      end
  | l => finish (launch_status l)
  end.

(** The whole script: [o0] is the world at start-up. *)
Definition main (o0 : oracle) (a : app) (ticks : list oracle) : Sh unit :=
  _ <- or_true (update_repo_once false o0) ;;
  echo ("[app] starting: " +++ CMD cfg) ;;
  spawn_app ;;
  pid <- get APP_PID ;;
  modify (set_pid_file (Some pid)) ;;
  supervise a ticks.

End Script.

End GitEntrypoint.

(** ** Reading traces *)

Definition is_kill (sig : signal) (e : event) : bool :=
  match e, sig with
  | Kill SIGTERM _, SIGTERM => true
  | Kill SIGKILL _, SIGKILL => true
  | _, _ => false
  end.

Definition is_spawn (e : event) : bool :=
  match e with Spawn _ => true | _ => false end.

Definition is_reaped (e : event) : bool :=
  match e with Reaped _ => true | _ => false end.

Definition is_pip (e : event) : bool :=
  match e with Pip _ _ => true | _ => false end.

Definition is_fetch (e : event) : bool :=
  match e with GitFetch _ | GitClone _ => true | _ => false end.

Definition is_reset (e : event) : bool :=
  match e with GitReset _ _ => true | _ => false end.

Definition is_flock (e : event) : bool :=
  match e with Flock => true | _ => false end.


Definition count (p : event -> bool) (t : list event) : nat :=
  length (filter p t).

(** Signals sent to the child, restarts (a new child started), installs. *)
Definition terms (t : list event) : nat := count (is_kill SIGTERM) t.
Definition kills (t : list event) : nat := count (is_kill SIGKILL) t.
Definition spawns (t : list event) : nat := count is_spawn t.
Definition installs (t : list event) : nat := count is_pip t.

(** What happens before the first signal is sent. *)
Fixpoint before_kill (t : list event) : list event :=
  match t with
  | [] => []
  | Kill _ _ :: _ => []
  | e :: t' => e :: before_kill t'
  end.

(** ** The advisory lock shared by concurrent runs *)

Module Locking.

(** Is the lock held by a process that has performed [t], given whether it
    held it before. *)
Fixpoint holds (held : bool) (t : list event) : bool :=
  match t with
  | [] => held
  | Flock :: t' => holds true t'
  | Funlock :: t' => holds false t'
  | _ :: t' => holds held t'
  end.

(** Every [git reset] of [t] is performed with the lock held. *)
Fixpoint resets_guarded (held : bool) (t : list event) : bool :=
  match t with
  | [] => true
  | Flock :: t' => resets_guarded true t'
  | Funlock :: t' => resets_guarded false t'
  | GitReset _ _ :: t' => held && resets_guarded held t'
  | _ :: t' => resets_guarded held t'
  end.

(** Two processes, [true] and [false], that open the same lock file.  Each
    has the events it has performed and those still to come. *)
Record system := mkSystem {
  holder : option bool;
  past_l : list event;  todo_l : list event;
  past_r : list event;  todo_r : list event
}.

(** The effect of an event of process [me] on the lock; [None]: the process
    cannot move ([flock] blocks while the lock is taken). *)
Definition lock_step (me : bool) (h : option bool) (e : event)
  : option (option bool) :=
  match e with
  | Flock => match h with None => Some (Some me) | Some _ => None end
  | Funlock =>
      match h with
      | Some x => if Bool.eqb x me then Some None else Some h
      | None => Some None
      end
  | _ => Some h
  end.

Inductive step : system -> system -> Prop :=
| step_l h h' e pl tl pr tr :
    lock_step true h e = Some h' ->
    step (mkSystem h pl (e :: tl) pr tr) (mkSystem h' (pl ++ [e]) tl pr tr)
| step_r h h' e pl tl pr tr :
    lock_step false h e = Some h' ->
    step (mkSystem h pl tl pr (e :: tr)) (mkSystem h' pl tl (pr ++ [e]) tr).

Definition start (tl tr : list event) : system := mkSystem None [] tl [] tr.

Definition reachable (tl tr : list event) (s : system) : Prop :=
  clos_refl_trans_n1 system step (start tl tr) s.

(** The same steps as a function: process [me] moves, if it can. *)
Definition move (me : bool) (s : system) : option system :=
  if me then
    match todo_l s with
    | e :: tl =>
        match lock_step true (holder s) e with
        | Some h' => Some (mkSystem h' (past_l s ++ [e]) tl (past_r s) (todo_r s))
        | None => None
        end
    | [] => None
    end
  else
    match todo_r s with
    | e :: tr =>
        match lock_step false (holder s) e with
        | Some h' => Some (mkSystem h' (past_l s) (todo_l s) (past_r s ++ [e]) tr)
        | None => None
        end
    | [] => None
    end.

(** Run the processes in the order [who] says. *)
Fixpoint schedule (who : list bool) (s : system) : option system :=
  match who with
  | [] => Some s
  | me :: rest =>
      match move me s with
      | Some s' => schedule rest s'
      | None => None
      end
  end.

End Locking.

(** ** Vocabulary of the properties *)

(** What a command substitution of [git rev-parse name || echo fallback]
    holds for a ref standing at [r], in a directory git accepts ([ok]) or
    not. *)
Definition shown (name fallback : string) (ok : bool) (r : option string)
  : string :=
  match r with
  | Some c => c
  | None => if ok then name +++ newline +++ fallback else fallback
  end.

(** The local head as the embedded entrypoint reads it in state [s]. *)
Definition seen_head (s : state) : string :=
  shown "HEAD" "none" (repo_ok s) (HEAD s).

(** The remote-tracking head as the embedded entrypoint reads it when the
    ref stands at [tr]. *)
Definition seen_origin (cfg : Embedded.config) (ok : bool)
    (tr : option string) : string :=
  shown (Embedded.REMOTE cfg +++ "/" +++ Embedded.BRANCH cfg) "none" ok tr.

(** The persisted digest equals the manifest's. *)
Definition digest_matches (stored : option string) (cur : string) : bool :=
  match stored with Some h => String.eqb cur h | None => false end.

(** The status [wait] gives for an application nobody signals. *)
Definition child_status (a : app) : option nat :=
  match starts a with
  | Started => own_exit a
  | l => Some (launch_status l)
  end.

Definition is_blocked {A} (r : res A) : bool :=
  match r with Blocked _ => true | _ => false end.

(** The exit code of the script, once it has one. *)
Definition exit_code {A} (r : res A) : option nat :=
  match r with Exited c _ => Some c | _ => None end.

(** During the period [o] the remote branch stays at [r]: a fetch fails or
    brings [r]. *)
Definition remote_stays (r : string) (o : oracle) : Prop :=
  remote o = None \/ remote o = Some r.


(** What stays true of two processes that share the lock file. *)
Definition lock_invariant (tl tr : list event) (s : Locking.system) : Prop :=
  Locking.past_l s ++ Locking.todo_l s = tl /\
  Locking.past_r s ++ Locking.todo_r s = tr /\
  (Locking.holds false (Locking.past_l s) = true ->
   Locking.holder s = Some true) /\
  (Locking.holds false (Locking.past_r s) = true ->
   Locking.holder s = Some false).

(** The checkout as the supervisor finds it after its sleep. *)
Definition after_sleep (o : oracle) (s : state) : state :=
  match outside_HEAD o with Some h => set_HEAD h s | None => s end.

(** The state after a restart that recorded [NEW]. *)
Definition restarted (NEW : string) (s : state) : state :=
  set_PREV NEW (set_APP_PID (S (last_pid s)) (set_last_pid (S (last_pid s)) s)).

(** The period [o], except that pip fails. *)
Definition pip_fails (o : oracle) : oracle :=
  mkOracle (remote o) (reset_ok o) (tree_requirements o) false
           (child_exits o) (outside_HEAD o).

(** ** Sample inputs *)

(** A checkout at abc123, in step with its remote; the digest recorded in
    .req.hash is older than the manifest. *)
Definition demo_state : state :=
  mkState true (Some "abc123") (Some "abc123") (Some "d1") (Some "d0") None
          "abc123" 7 7 true.

Definition demo_update : Embedded.config :=
  Embedded.mkConfig "python run.py" "main" "origin" "update".

Definition demo_watch : Embedded.config :=
  Embedded.mkConfig "python run.py" "main" "origin" "watch".

(** A period in which everything works and the remote branch is at [h]. *)
Definition quiet (h : string) : oracle :=
  mkOracle (Some h) true (Some "d1") true true None.

Definition demo_entry : GitEntrypoint.config :=
  GitEntrypoint.mkConfig "/app" "https://example.org/panel.git" "main"
                         "python run.py".

(** An application that runs until SIGTERM ends it. *)
Definition demo_app : app := mkApp Started None (Some 143).

(** A child that ignores SIGTERM. *)
Definition stubborn (h : string) : oracle :=
  mkOracle (Some h) true (Some "d1") true false None.

(** A checkout whose recorded digest equals that of its manifest. *)
Definition installed_state : state :=
  mkState true (Some "abc123") (Some "abc123") (Some "d1") (Some "d1") None
          "abc123" 7 7 true.

(** A checkout without any commit. *)
Definition unborn_state : state :=
  mkState true None None None None None "" 7 7 true.

(** Somebody else moves HEAD to [h] during the period. *)
Definition moved (h : string) : oracle :=
  mkOracle None true None true true (Some (Some h)).


(** An application that ends by itself with status 3. *)
Definition short_app : app := mkApp Started (Some 3) None.


(** A directory with a .git that git does not accept as a repository. *)
Definition broken_state : state :=
  mkState true None None None None None "none" 7 7 false.


(** Somebody else moves HEAD to [h] and the child ignores SIGTERM. *)
Definition moved_stubborn (h : string) : oracle :=
  mkOracle None true None true false (Some (Some h)).
(** ** Further vocabulary: whole runs of the scripts *)

(** One child at a time: reading a trace with the pid of the live child,
    a [Spawn] needs no live child, a [Reaped] and every signal are for the
    live child. *)
Fixpoint one_child (live : option nat) (t : list event) : bool :=
  match t with
  | [] => true
  | Spawn p :: t' =>
      match live with None => one_child (Some p) t' | Some _ => false end
  | Reaped p :: t' =>
      match live with
      | Some q => Nat.eqb p q && one_child None t'
      | None => false
      end
  | Kill _ p :: t' =>
      match live with
      | Some q => Nat.eqb p q && one_child live t'
      | None => false
      end
  | _ :: t' => one_child live t'
  end.

(** The child that is live after [t]. *)
Fixpoint live_after (live : option nat) (t : list event) : option nat :=
  match t with
  | [] => live
  | Spawn p :: t' => live_after (Some p) t'
  | Reaped _ :: t' => live_after None t'
  | _ :: t' => live_after live t'
  end.

(** How often a sequence of observed heads differs from the head observed
    before. *)
Fixpoint changes (prev : string) (heads : list string) : nat :=
  match heads with
  | [] => 0
  | h :: rest =>
      (if String.eqb h prev then 0 else 1) + changes h rest
  end.

(** The same, for update mode: the sentinel [none] is passed over. *)
Fixpoint known_changes (prev : string) (heads : list string) : nat :=
  match heads with
  | [] => 0
  | h :: rest =>
      if negb (String.eqb h prev) && negb (String.eqb h "none")
      then 1 + known_changes h rest
      else known_changes prev rest
  end.

(** The local heads a watcher reads, period after period, in a checkout
    that only others move; [ok]: git accepts the directory. *)
Fixpoint watched (ok : bool) (h : option string) (ticks : list oracle)
  : list string :=
  match ticks with
  | [] => []
  | o :: rest =>
      let h' := match outside_HEAD o with Some x => x | None => h end in
      shown "HEAD" "none" ok h' :: watched ok h' rest
  end.

(** The remote-tracking heads update mode reads after each fetch. *)
Fixpoint fetched (cfg : Embedded.config) (ok : bool) (tr : option string)
    (ticks : list oracle) : list string :=
  match ticks with
  | [] => []
  | o :: rest =>
      let tr' := match remote o with Some h => Some h | None => tr end in
      seen_origin cfg ok tr' :: fetched cfg ok tr' rest
  end.

(** The remote-tracking ref as it is after the fetch of period [o]. *)
Definition after_fetch (o : oracle) (s : state) : option string :=
  match remote o with Some h => Some h | None => tracking s end.

(** What changes the checkout or the installed packages. *)
Definition is_mutation (e : event) : bool :=
  match e with
  | GitFetch _ | GitReset _ _ | GitClone _ | Pip _ _ | WriteHash _ => true
  | _ => false
  end.

(** Every event of [t] that satisfies [p] happens with the lock held. *)
Fixpoint guarded (p : event -> bool) (held : bool) (t : list event) : bool :=
  match t with
  | [] => true
  | Flock :: t' => guarded p true t'
  | Funlock :: t' => guarded p false t'
  | e :: t' => (negb (p e) || held) && guarded p held t'
  end.

(** The lock events of [t] come in pairs: [flock] only when the lock is not
    held, a release only when it is, and nothing held at the end. *)
Fixpoint bracketed (held : bool) (t : list event) : bool :=
  match t with
  | [] => negb held
  | Flock :: t' => negb held && bracketed true t'
  | Funlock :: t' => held && bracketed false t'
  | _ :: t' => bracketed held t'
  end.

(** The holder of the lock is inside its locked section. *)
Definition holder_inside (s : Locking.system) : Prop :=
  (Locking.holder s = Some true ->
   Locking.holds false (Locking.past_l s) = true) /\
  (Locking.holder s = Some false ->
   Locking.holds false (Locking.past_r s) = true).

(** ** The formatters of the dashboard ([app/static/js/gameservers/realm.js]) *)

From Stdlib Require ZArith QArith Qround DecimalString Ascii.

Module Realm.

Import ZArith QArith Qround DecimalString Ascii.
Local Open Scope Z_scope.

(** What the formatters are given: nothing ([null] or [undefined]), or a
    number.  Numbers are integer-valued (counts of bytes and of
    milliseconds).  The functions below compute on [Z] and [Q] what the
    source computes on doubles; the two agree for numbers below [2^53] in
    absolute value, where the integers, the quotients by powers of two and
    the floors of the quotients are exact, and where [String] and [toFixed]
    write plain decimals.  Statements about positive numbers are made within
    that range. *)
Inductive value := missing | number (z : Z).

Definition dash : string := "—".

(** [String(z)] for an integer. *)
Definition to_string (z : Z) : string := NilZero.string_of_int (Z.to_int z).

(** [parts.join(sep)] *)
Fixpoint join (sep : string) (parts : list string) : string :=
  match parts with
  | [] => ""
  | [p] => p
  | p :: rest => p +++ sep +++ join sep rest
  end.

(** The array [parts] of [humanMs]: a component is pushed when it is not 0. *)
Definition parts_of (d h m s : Z) : list string :=
  (if d =? 0 then [] else [to_string d +++ "д"])
  ++ (if h =? 0 then [] else [to_string h +++ "ч"])
  ++ (if m =? 0 then [] else [to_string m +++ "м"])
  ++ (if s =? 0 then [] else [to_string s +++ "с"]).

(** [humanMs(ms)], for [ms] below [2^53]. *)
Definition humanMs (ms : value) : string :=
  match ms with
  | missing => dash
  | number ms =>
      if (ms =? 0) || (ms <? 0) then dash
      else
        let s := ms / 1000 in
        let d := s / 86400 in
        let s := s mod 86400 in
        let h := s / 3600 in
        let s := s mod 3600 in
        let m := s / 60 in
        let s := s mod 60 in
        let joined := join " " (parts_of d h m s) in
        if String.eqb joined "" then "0с" else joined
  end.

(** The units of [bytesFmt]. *)
Definition units : list string := ["B"; "KB"; "MB"; "GB"; "TB"].

(** The loop of [bytesFmt]: divide by 1024 and move to the next unit while
    the value is at least 1024 and a next unit exists. *)
Fixpoint scale (x : Q) (u : string) (larger : list string) : Q * string :=
  match larger with
  | [] => (x, u)
  | u' :: rest =>
      if Qle_bool (1024 # 1) x then scale (x / (1024 # 1)) u' rest
      else (x, u)
  end.

(** The tenths [x.toFixed(1)] prints, for [x >= 0]: the integer nearest to
    [10 x], the larger one of two. *)
Definition tenths (x : Q) : Z := Qfloor (x * (10 # 1) + (1 # 2)).

(** A number of tenths written with one decimal. *)
Definition show_tenths (n : Z) : string :=
  to_string (n / 10) +++ "." +++ to_string (n mod 10).

(** [x.toFixed(1)] for [x >= 0]. *)
Definition toFixed1 (x : Q) : string := show_tenths (tenths x).

(** [bytesFmt(v)], for [v] below [2^53]. *)
Definition bytesFmt (v : value) : string :=
  match v with
  | missing => dash
  | number v =>
      if v <? 0 then dash
      else
        let (x, u) := scale (inject_Z v) "B" ["KB"; "MB"; "GB"; "TB"] in
        toFixed1 x +++ " " +++ u
  end.

(** The update of [tpsSeries] in [render]: a numeric reading is pushed, and
    the oldest entry is shifted out once there are more than 60. *)
Definition push_tps {T} (tps1m : option T) (tpsSeries : list T) : list T :=
  match tps1m with
  | Some x =>
      let pushed := tpsSeries ++ [x] in
      if (60 <? length pushed)%nat then tl pushed else pushed
  | None => tpsSeries
  end.

(** [tpsSeries] after the readings of successive calls of [render]. *)
Definition series_after {T} (readings : list (option T)) : list T :=
  fold_left (fun series r => push_tps r series) readings [].

(** The readings that are numbers. *)
Fixpoint numeric {T} (readings : list (option T)) : list T :=
  match readings with
  | [] => []
  | Some x :: rest => x :: numeric rest
  | None :: rest => numeric rest
  end.

(** The last [n] elements of a list. *)
Definition lastn {T} (n : nat) (l : list T) : list T :=
  skipn (length l - n) l.

(** The double quote. *)
Definition dq : ascii := "034"%char.

(** The [replace] of [esc]: every double quote is written twice. *)
Fixpoint double_quotes (s : string) : string :=
  match s with
  | EmptyString => EmptyString
  | String c rest =>
      if Ascii.eqb c dq
      then String dq (String dq (double_quotes rest))
      else String c (double_quotes rest)
  end.

(** [esc] of the CSV export: the value as a string ([None] for [null] and
    [undefined], which become the empty string), quotes doubled, in
    quotes. *)
Definition esc (v : option string) : string :=
  String dq (double_quotes (match v with Some s => s | None => "" end)
             +++ String dq EmptyString).

(** How often the double quote occurs in a string. *)
Fixpoint quotes (s : string) : nat :=
  match s with
  | EmptyString => 0
  | String c rest => (if Ascii.eqb c dq then 1 else 0) + quotes rest
  end.

End Realm.

(** ** Basic facts *)

Arguments String.eqb : simpl nomatch.
Arguments String.append : simpl never.
Arguments count : simpl never.
Arguments terms : simpl never.
Arguments kills : simpl never.
Arguments spawns : simpl never.
Arguments installs : simpl never.

Lemma count_app p (t u : list event) : count p (t ++ u) = count p t + count p u.
Proof. unfold count. now rewrite filter_app, length_app. Qed.

Lemma count_nil p : count p [] = 0.
Proof. reflexivity. Qed.

Lemma count_cons p e (t : list event) :
  count p (e :: t) = (if p e then 1 else 0) + count p t.
Proof. unfold count. cbn. now destruct (p e). Qed.

Lemma bind_ret {A B} (m : Sh A) (k : A -> Sh B) s t a s' :
  m s = (t, Ret a s') ->
  bind m k s = (t ++ trace (k a s'), result (k a s')).
Proof. intros H. unfold bind. rewrite H. now destruct (k a s'). Qed.

Lemma bind_blocked {A B} (m : Sh A) (k : A -> Sh B) s t s' :
  m s = (t, Blocked s') -> bind m k s = (t, Blocked s').
Proof. intros H. unfold bind. now rewrite H. Qed.

Lemma bind_exited {A B} (m : Sh A) (k : A -> Sh B) s t c s' :
  m s = (t, Exited c s') -> bind m k s = (t, Exited c s').
Proof. intros H. unfold bind. now rewrite H. Qed.

Lemma or_true_ret (c : Sh nat) s t st s' :
  c s = (t, Ret st s') -> or_true c s = (t, Ret 0 s').
Proof.
  intros H. unfold or_true, bind, ret. rewrite H. now rewrite app_nil_r.
Qed.

Lemma eqb_neq_false (x y : string) : x <> y -> String.eqb x y = false.
Proof. intros H. now apply String.eqb_neq. Qed.

Lemma length_append (a b : string) :
  String.length (a +++ b) = String.length a + String.length b.
Proof.
  induction a as [|c a IH]; [reflexivity|].
  change (String c a +++ b) with (String c (a +++ b)). cbn. now rewrite IH.
Qed.

(** Two texts that end differently are different. *)
Lemma suffix_differs (a b x y : string) :
  String.length x = String.length y -> x <> y -> a +++ x <> b +++ y.
Proof.
  intros Hl Hne. revert b.
  induction a as [|c a IH]; intros [|d b] E.
  - exact (Hne E).
  - change ("" +++ x) with x in E. subst x.
    change (String d b +++ y) with (String d (b +++ y)) in Hl.
    cbn in Hl. rewrite length_append in Hl. lia.
  - change ("" +++ y) with y in E. subst y.
    change (String c a +++ x) with (String c (a +++ x)) in Hl.
    cbn in Hl. rewrite length_append in Hl. lia.
  - change (String c a +++ x) with (String c (a +++ x)) in E.
    change (String d b +++ y) with (String d (b +++ y)) in E.
    injection E as _ E. exact (IH b E).
Qed.

(** ** The update branch of the embedded entrypoint *)

Ltac run :=
  unfold Embedded.period, Embedded.tick, Embedded.update_branch,
    Embedded.watch_branch, Embedded.install_deps, Embedded.origin_head,
    Embedded.current_head, Embedded.log, sleep, git_fetch, git_reset_hard,
    rev_parse_or, pip_install, kill, wait, spawn_app, or_true, simple,
    bind, get, modify, emit, ret, block, exit, trace, result, final;
  cbn.

(** What a tick of update mode does when the fetch brings a head other than
    [PREV]. *)
Lemma update_period_changed cfg o s B :
  Embedded.MODE cfg = "update" ->
  remote o = Some B -> B <> PREV s -> B <> "none" ->
  child_exits o = true ->
  exists t s',
    Embedded.period cfg o s = (t, Ret tt s') /\
    terms t = 1 /\ spawns t = 1 /\ kills t = 0 /\
    PREV s' = B /\ tracking s' = Some B /\
    (reset_ok o = true -> HEAD s' = Some B).
Proof.
  intros Hm Hr Hp Hn Hc.
  apply eqb_neq_false in Hp, Hn.
  run. rewrite Hm, Hr, Hc. cbn.
  destruct (outside_HEAD o) as [h|]; cbn; rewrite Hp, Hn; cbn;
    destruct (reset_ok o); cbn;
    repeat match goal with
           | |- context [match ?x with Some _ => _ | None => _ end] =>
               destruct x; cbn
           end;
    (eexists; eexists; split; [reflexivity|]); cbn;
    repeat split; auto; discriminate.
Qed.

Ltac cases :=
  repeat match goal with
         | |- context [match ?x with Some _ => _ | None => _ end] =>
             destruct x; cbn
         | |- context [if ?b then _ else _] => destruct b; cbn
         | H : context [match ?x with Some _ => _ | None => _ end] |- _ =>
             destruct x; cbn in H
         | H : context [if ?b then _ else _] |- _ => destruct b; cbn in H
         end.

(** A completed tick of update mode that fetched [A] leaves [PREV = A]. *)
Lemma update_period_observes cfg o s A t s1 :
  Embedded.MODE cfg = "update" ->
  remote o = Some A -> A <> "none" ->
  Embedded.period cfg o s = (t, Ret tt s1) ->
  PREV s1 = A /\ tracking s1 = Some A.
Proof.
  intros Hm Hr Hn. apply eqb_neq_false in Hn.
  run. rewrite Hm, Hr. cbn.
  destruct (outside_HEAD o) as [h|]; cbn; rewrite Hn; cbn;
    (destruct (String.eqb_spec A (PREV s)) as [E|E]; cbn;
     [ intros [= <- <-]; cbn; auto | ]);
    cases; intros [= <- <-]; cbn; auto.
Qed.

(** C1, as amended: in update mode, when a tick that fetched commit A has
    completed and the next fetch succeeds and brings another commit B, and
    in that next tick the hard reset succeeds and the old child exits (so
    that [wait] returns), then the tick sends SIGTERM once, starts the child
    once, and when it completes HEAD is B and [PREV = B]. *)
Theorem update_tick_follows_remote cfg s o1 o2 A B t1 s1 :
  Embedded.MODE cfg = "update" ->
  remote o1 = Some A -> remote o2 = Some B ->
  A <> B -> A <> "none" -> B <> "none" ->
  Embedded.period cfg o1 s = (t1, Ret tt s1) ->
  child_exits o2 = true ->
  reset_ok o2 = true ->
  exists t2 s2,
    Embedded.period cfg o2 s1 = (t2, Ret tt s2) /\
    terms t2 = 1 /\ spawns t2 = 1 /\ kills t2 = 0 /\
    PREV s2 = B /\ HEAD s2 = Some B.
Proof.
  intros Hm H1 H2 HAB HA HB Hrun Hc Hreset.
  destruct (update_period_observes _ _ _ _ _ _ Hm H1 HA Hrun) as [HP _].
  assert (HBP : B <> PREV s1) by (rewrite HP; congruence).
  destruct (update_period_changed cfg o2 s1 B Hm H2 HBP HB Hc)
    as (t2 & s2 & E & Ht & Hs & Hk & HP2 & _ & Hh).
  exists t2, s2. repeat split; auto.
Qed.

Lemma update_tick_follows_remote_witness :
  exists t2 s2,
    Embedded.period demo_update (quiet "def456") demo_state = (t2, Ret tt s2) /\
    terms t2 = 1 /\ spawns t2 = 1 /\ kills t2 = 0 /\
    PREV s2 = "def456" /\ HEAD s2 = Some "def456".
Proof.
  apply (update_tick_follows_remote demo_update demo_state
           (quiet "abc123") (quiet "def456") "abc123" "def456"
           [GitFetch true] demo_state);
    try reflexivity; discriminate.
Defined.

(** C1 as stated fails: the remote head goes from abc123 to def456, the
    fetch succeeds, one restart is made, but [git reset --hard] fails (its
    status is discarded by [|| true]) and HEAD is still abc123 after the
    tick. *)
Lemma update_tick_reset_failure :
  let o2 := mkOracle (Some "def456") false None true true None in
  Embedded.period demo_update (quiet "abc123") demo_state
    = ([GitFetch true], Ret tt demo_state) /\
  remote o2 = Some "def456" /\
  spawns (trace (Embedded.period demo_update o2 demo_state)) = 1 /\
  HEAD (final (result (Embedded.period demo_update o2 demo_state)))
    = Some "abc123" /\
  HEAD (final (result (Embedded.period demo_update o2 demo_state)))
    <> Some "def456".
Proof. vm_compute. repeat split; discriminate. Qed.

(** ** No restart while the remote head stays put *)






(** *** The watcher of git-entrypoint.sh *)

Ltac runG :=
  unfold GitEntrypoint.check, GitEntrypoint.update_repo_once,
    GitEntrypoint.install_reqs, GitEntrypoint.git_clone,
    GitEntrypoint.git_remote_set_url, GitEntrypoint.flock,
    GitEntrypoint.funlock, GitEntrypoint.echo, GitEntrypoint.finish,
    sleep, git_fetch, git_reset_hard,
    rev_parse_or, pip_install, kill, wait, spawn_app, or_true, simple,
    bind, get, modify, emit, ret, block, exit, trace, result, final;
  cbn.








(** ** How the child is terminated *)

Lemma update_repo_once_returns cfg o s :
  exists t rc s',
    GitEntrypoint.update_repo_once cfg false o s = (t, Ret rc s') /\
    terms t = 0 /\ kills t = 0 /\ spawns t = 0 /\ count is_reaped t = 0 /\
    APP_PID s' = APP_PID s /\ pid_file s' = pid_file s /\
    last_pid s' = last_pid s.
Proof.
  runG. cases; do 3 eexists; (split; [reflexivity|]); cbn; auto 10.
Qed.

Lemma check_returns cfg o s :
  exists t rc s',
    GitEntrypoint.check cfg o s = (t, Ret rc s') /\
    terms t = 0 /\ kills t = 0 /\ spawns t = 0 /\ count is_reaped t = 0 /\
    APP_PID s' = APP_PID s /\ pid_file s' = pid_file s /\
    last_pid s' = last_pid s.
Proof.
  unfold GitEntrypoint.check, sleep.
  destruct (outside_HEAD o) as [h|].
  - destruct (update_repo_once_returns cfg o (set_HEAD h s))
      as (t & rc & s' & E & H).
    exists t, rc, s'. split; [|exact H].
    unfold bind at 1 2, modify, ret. cbn. now rewrite E.
  - destruct (update_repo_once_returns cfg o s) as (t & rc & s' & E & H).
    exists t, rc, s'. split; [|exact H].
    unfold bind at 1, ret. now rewrite E.
Qed.

Lemma supervise_never_kills cfg a ticks : forall s,
  kills (trace (GitEntrypoint.supervise cfg a ticks s)) = 0 /\
  spawns (trace (GitEntrypoint.supervise cfg a ticks s)) = 0.
Proof.
  induction ticks as [|o rest IH]; intros s.
  - cbn. destruct (starts a); cbn; try destruct (own_exit a); now cbn.
  - cbn [GitEntrypoint.supervise].
    destruct (starts a) eqn:Hst; try now cbn.
    destruct (check_returns cfg o s)
      as (t & rc & s' & E & _ & Hk & Hs & _).
    rewrite (bind_ret _ _ _ _ _ _ E).
    cbn [trace result fst snd].
    destruct (IH s') as [IHk IHs].
    unfold kills, spawns in *. rewrite !count_app, Hk, Hs.
    destruct (Nat.eqb rc 0); [now rewrite IHk, IHs|].
    unfold GitEntrypoint.echo, GitEntrypoint.finish, or_true, kill,
      bind, get, emit, ret, exit. cbn.
    destruct (on_TERM a) as [st|]; cbn.
    + destruct (Nat.eqb _ _); cbn.
      * now rewrite !count_cons.
      * destruct (GitEntrypoint.supervise cfg a rest s') as [t1 r1].
        cbn in *. rewrite !count_cons. cbn. lia.
    + destruct (GitEntrypoint.supervise cfg a rest s') as [t1 r1].
      cbn in *. rewrite !count_cons. cbn. lia.
Qed.

Lemma entry_main_never_kills cfg o0 a ticks s :
  kills (trace (GitEntrypoint.main cfg o0 a ticks s)) = 0 /\
  spawns (trace (GitEntrypoint.main cfg o0 a ticks s)) = 1.
Proof.
  destruct (update_repo_once_returns cfg o0 s)
    as (t & rc & s' & E & _ & Hk & Hs & _).
  unfold GitEntrypoint.main.
  rewrite (bind_ret _ _ _ _ _ _ (or_true_ret _ _ _ _ _ E)).
  unfold GitEntrypoint.echo, spawn_app, bind, get, modify, emit, ret. cbn.
  match goal with
  | |- context [GitEntrypoint.supervise cfg a ticks ?s1] =>
      destruct (supervise_never_kills cfg a ticks s1) as [Hk1 Hs1];
      destruct (GitEntrypoint.supervise cfg a ticks s1) as [t1 r1]
  end.
  cbn in *. unfold kills, spawns in *.
  rewrite !count_app, !count_cons. cbn. lia.
Qed.

(** C3, as amended: terminating the child is a SIGTERM followed by an
    unbounded [wait].  A tick of the embedded entrypoint either does not
    touch the child, or its trace ends with SIGTERM to the current child,
    then (only once [wait] has returned) the start of the new child; when the
    child does not exit the tick stays blocked in [wait] right after the
    SIGTERM.  SIGKILL is never sent, by either script, and there is no grace
    period. *)
Theorem restart_is_term_then_wait cfg cfgG o s o0 a ticks s0 :
  let t := trace (Embedded.tick cfg o s) in
  kills t = 0 /\
  ((terms t = 0 /\ spawns t = 0 /\
    is_blocked (result (Embedded.tick cfg o s)) = false) \/
   (spawns (before_kill t) = 0 /\ count is_reaped (before_kill t) = 0 /\
    t = before_kill t ++ Kill SIGTERM (APP_PID s) ::
          (if child_exits o
           then [Reaped (APP_PID s); Spawn (S (last_pid s))]
           else []) /\
    is_blocked (result (Embedded.tick cfg o s)) = negb (child_exits o))) /\
  kills (trace (GitEntrypoint.main cfgG o0 a ticks s0)) = 0.
Proof.
  cbv zeta. split; [|split; [|apply entry_main_never_kills]].
  - run. cases; reflexivity.
  - run. cases;
      first [ left; repeat split; reflexivity
            | right; repeat split; reflexivity ].
Qed.

(** C3 as stated fails: the child ignores SIGTERM; the supervisor has sent
    SIGTERM once and is blocked in [wait], and no SIGKILL follows, however
    long the child stays. *)
Lemma stubborn_child_is_never_killed :
  let run := Embedded.period demo_update (stubborn "def456") demo_state in
  child_exits (stubborn "def456") = false /\
  terms (trace run) = 1 /\
  kills (trace run) = 0 /\
  kills (trace run) <> 1 /\
  is_blocked (result run) = true.
Proof. vm_compute. repeat split; discriminate. Qed.

(** ** The lock *)

Lemma holds_app t : forall b u,
  Locking.holds b (t ++ u) = Locking.holds (Locking.holds b t) u.
Proof.
  induction t as [|e t IH]; intros b u; [reflexivity|].
  destruct e; cbn; apply IH.
Qed.

Lemma resets_guarded_app t : forall b u,
  Locking.resets_guarded b (t ++ u)
  = Locking.resets_guarded b t
    && Locking.resets_guarded (Locking.holds b t) u.
Proof.
  induction t as [|e t IH]; intros b u; [reflexivity|].
  destruct e; cbn; rewrite ?IH; try reflexivity.
  now rewrite Bool.andb_assoc.
Qed.

Lemma lock_invariant_step tl tr s s' :
  lock_invariant tl tr s -> Locking.step s s' -> lock_invariant tl tr s'.
Proof.
  intros (Hl & Hr & Il & Ir) Hstep.
  destruct Hstep as [h h' e pl tdl pr tdr He | h h' e pl tdl pr tdr He];
    cbn in *; unfold lock_invariant; cbn;
    rewrite <- ?app_assoc; cbn; (split; [assumption|]);
    (split; [assumption|]); rewrite holds_app; cbn.
  - destruct e; cbn in *; try (injection He as <-; now split).
    + destruct h as [x|]; [discriminate|]. injection He as <-.
      split; [reflexivity|]. intros H. specialize (Ir H). discriminate.
    + split; [discriminate|]. intros H. specialize (Ir H). subst h.
      cbn in He. now injection He as <-.
  - destruct e; cbn in *; try (injection He as <-; now split).
    + destruct h as [x|]; [discriminate|]. injection He as <-.
      split; [|reflexivity]. intros H. specialize (Il H). discriminate.
    + split; [|discriminate]. intros H. specialize (Il H). subst h.
      cbn in He. now injection He as <-.
Qed.

Lemma lock_invariant_reachable tl tr s :
  Locking.reachable tl tr s -> lock_invariant tl tr s.
Proof.
  unfold Locking.reachable. induction 1 as [|y z Hstep _ IH].
  - unfold lock_invariant, Locking.start. cbn. repeat split; discriminate.
  - eapply lock_invariant_step; eauto.
Qed.

Lemma resets_guarded_prefix p q :
  Locking.resets_guarded false (p ++ q) = true ->
  Locking.resets_guarded false p = true.
Proof.
  rewrite resets_guarded_app. intros H.
  now apply Bool.andb_true_iff in H.
Qed.

Lemma update_repo_once_brackets cfg o s :
  let t := trace (GitEntrypoint.update_repo_once cfg false o s) in
  Locking.resets_guarded false t = true /\ Locking.holds false t = false.
Proof. runG. cases; split; reflexivity. Qed.

(** C4, as amended: in git-entrypoint.sh, for two runs of update_repo_once
    that take their lock on the same file, at no moment are both between
    their [flock] and the release (their fetch/reset/install sections never
    overlap), every hard reset either of them has made was made with the lock
    held, and each run ends with the lock released.  The embedded entrypoint
    takes no lock. *)
Theorem update_repo_once_serialized cfg1 o1 s1 cfg2 o2 s2 sys :
  let tl := trace (GitEntrypoint.update_repo_once cfg1 false o1 s1) in
  let tr := trace (GitEntrypoint.update_repo_once cfg2 false o2 s2) in
  Locking.reachable tl tr sys ->
  Locking.holds false (Locking.past_l sys)
    && Locking.holds false (Locking.past_r sys) = false /\
  Locking.resets_guarded false (Locking.past_l sys) = true /\
  Locking.resets_guarded false (Locking.past_r sys) = true /\
  Locking.holds false tl = false /\ Locking.holds false tr = false.
Proof.
  intros tl tr Hreach.
  destruct (lock_invariant_reachable _ _ _ Hreach) as (Hl & Hr & Il & Ir).
  destruct (update_repo_once_brackets cfg1 o1 s1) as [Gl Rl].
  destruct (update_repo_once_brackets cfg2 o2 s2) as [Gr Rr].
  fold tl in Gl, Rl. fold tr in Gr, Rr.
  repeat split; auto.
  - destruct (Locking.holds false (Locking.past_l sys)) eqn:El;
      destruct (Locking.holds false (Locking.past_r sys)) eqn:Er; auto.
    specialize (Il eq_refl). specialize (Ir eq_refl). congruence.
  - rewrite <- Hl in Gl. now apply resets_guarded_prefix in Gl.
  - rewrite <- Hr in Gr. now apply resets_guarded_prefix in Gr.
Qed.

Lemma move_step me s s' : Locking.move me s = Some s' -> Locking.step s s'.
Proof.
  destruct s as [h pl tl pr tr]. unfold Locking.move. cbn.
  destruct me.
  - destruct tl as [|e tl]; [discriminate|].
    destruct (Locking.lock_step true h e) as [h'|] eqn:E; [|discriminate].
    intros [= <-]. now constructor.
  - destruct tr as [|e tr]; [discriminate|].
    destruct (Locking.lock_step false h e) as [h'|] eqn:E; [|discriminate].
    intros [= <-]. now constructor.
Qed.

Lemma schedule_reachable tl tr who : forall s s',
  Locking.reachable tl tr s ->
  Locking.schedule who s = Some s' ->
  Locking.reachable tl tr s'.
Proof.
  induction who as [|me rest IH]; intros s s' Hs; cbn.
  - now intros [= <-].
  - destruct (Locking.move me s) as [s1|] eqn:E; [|discriminate].
    apply IH. unfold Locking.reachable.
    econstructor 2; [apply (move_step _ _ _ E)|exact Hs].
Qed.

Lemma update_repo_once_serialized_witness :
  let tl := trace (GitEntrypoint.update_repo_once demo_entry false
                     (quiet "def456") demo_state) in
  let tr := trace (GitEntrypoint.update_repo_once demo_entry false
                     (quiet "abc123") demo_state) in
  let sys := Locking.mkSystem (Some true)
               [Flock; GitSetUrl; GitFetch true;
                Log "[git] update: abc123 -> def456";
                GitReset "origin/main" true]
               [Log "[deps] installing requirements..."; Pip true true;
                WriteHash "d1"; Funlock]
               [] [Flock; GitSetUrl; GitFetch true; Funlock] in
  Locking.schedule [true; true; true; true; true] (Locking.start tl tr)
    = Some sys /\
  Locking.move false sys = None /\
  (Locking.holds false (Locking.past_l sys)
     && Locking.holds false (Locking.past_r sys) = false /\
   Locking.resets_guarded false (Locking.past_l sys) = true /\
   Locking.resets_guarded false (Locking.past_r sys) = true /\
   Locking.holds false tl = false /\ Locking.holds false tr = false).
Proof.
  intros tl tr sys.
  split; [reflexivity|]. split; [reflexivity|].
  apply (update_repo_once_serialized demo_entry (quiet "def456") demo_state
           demo_entry (quiet "abc123") demo_state sys).
  apply (schedule_reachable _ _ [true; true; true; true; true]
           (Locking.start tl tr) sys); [constructor 1|reflexivity].
Defined.

(** C4 as stated fails: the update branch of the embedded entrypoint resets
    the checkout without taking any lock. *)
Lemma embedded_reset_without_lock :
  let t := trace (Embedded.period demo_update (quiet "def456") demo_state) in
  count is_reset t = 1 /\
  count is_flock t = 0 /\
  Locking.resets_guarded false t = false.
Proof. vm_compute. repeat split. Qed.

(** ** Installing the requirements *)

(** C5, as amended: in git-entrypoint.sh, with a manifest present,
    install_reqs runs pip exactly when the digest in .req.hash is missing or
    differs from the manifest's, whatever pip then does; when pip succeeds
    the recorded digest equals the manifest's afterwards, and a second call
    on the unchanged manifest installs nothing more (one install for the two
    calls if the digests differed, none otherwise). *)
Theorem install_reqs_once_per_digest o0 o o' s cur :
  requirements s = Some cur ->
  pip_ok o = true ->
  let first := GitEntrypoint.install_reqs false o s in
  let both := (_ <- GitEntrypoint.install_reqs false o ;;
               GitEntrypoint.install_reqs false o') s in
  installs (trace (GitEntrypoint.install_reqs false o0 s))
    = (if digest_matches (req_hash s) cur then 0 else 1) /\
  req_hash (final (result first)) = Some cur /\
  requirements (final (result first)) = Some cur /\
  installs (trace both)
    = (if digest_matches (req_hash s) cur then 0 else 1).
Proof.
  intros Hreq Hpip. cbv zeta. runG. rewrite Hreq. cbn.
  unfold digest_matches.
  destruct (req_hash s) as [h|] eqn:Eh; cbn.
  - destruct (String.eqb cur h) eqn:E; cbn.
    + rewrite Hreq, Eh. cbn. rewrite E. cbn. apply String.eqb_eq in E.
      subst h. auto.
    + rewrite Hpip. cbn. rewrite Hreq. cbn. rewrite String.eqb_refl. cbn.
      destruct (pip_ok o0); cbn; auto.
  - rewrite Hpip. cbn. rewrite Hreq. cbn. rewrite String.eqb_refl. cbn.
    destruct (pip_ok o0); cbn; auto.
Qed.

Lemma install_reqs_once_per_digest_witness :
  let first := GitEntrypoint.install_reqs false (quiet "abc123") demo_state in
  let both := (_ <- GitEntrypoint.install_reqs false (quiet "abc123") ;;
               GitEntrypoint.install_reqs false (quiet "def456")) demo_state in
  installs (trace (GitEntrypoint.install_reqs false
                     (pip_fails (quiet "abc123")) demo_state))
    = (if digest_matches (req_hash demo_state) "d1" then 0 else 1) /\
  req_hash (final (result first)) = Some "d1" /\
  requirements (final (result first)) = Some "d1" /\
  installs (trace both)
    = (if digest_matches (req_hash demo_state) "d1" then 0 else 1).
Proof.
  apply (install_reqs_once_per_digest (pip_fails (quiet "abc123"))
           (quiet "abc123") (quiet "def456") demo_state "d1"); reflexivity.
Defined.

(** C5 as stated fails: in the embedded entrypoint the recorded digest
    already equals the manifest's, the manifest is the same in both commits,
    and pip still runs at each of the two changes. *)
Lemma install_deps_every_time :
  let run := Embedded.poll demo_update [quiet "def456"; quiet "0fed789"]
               installed_state in
  req_hash installed_state = requirements installed_state /\
  requirements (final (result run)) = requirements installed_state /\
  installs (trace (Embedded.period demo_update (quiet "def456")
                     installed_state)) = 1 /\
  installs (trace run) = 2.
Proof. vm_compute. repeat split. Qed.





(** ** Absent heads *)

(** C7, as amended: in update mode of the embedded entrypoint, when the
    fetch fails, the tick is a no-op (the error is swallowed, nothing is
    reset, the child is left alone, the state is unchanged) in two cases:
    the remote-tracking ref cannot be resolved and git rev-parse prints
    nothing, so that the value read is the sentinel none; or the ref still
    resolves to the head recorded in [PREV]. *)
Theorem absent_remote_head_is_noop cfg o s :
  Embedded.MODE cfg = "update" ->
  remote o = None ->
  (tracking s = None /\ repo_ok s = false) \/ tracking s = Some (PREV s) ->
  Embedded.tick cfg o s = ([GitFetch false], Ret tt s).
Proof.
  intros Hm Hr [[Ht Hok]|Ht]; run; rewrite Hm, Hr; cbn; rewrite Ht; cbn.
  - rewrite Hok. cbn. rewrite Bool.andb_false_r. reflexivity.
  - rewrite String.eqb_refl. reflexivity.
Qed.

Lemma absent_remote_head_is_noop_witness :
  Embedded.tick demo_update (mkOracle None true None true true None)
    broken_state
  = ([GitFetch false], Ret tt broken_state).
Proof.
  apply (absent_remote_head_is_noop demo_update
           (mkOracle None true None true true None) broken_state);
    [reflexivity | reflexivity | left; split; reflexivity].
Defined.

(** C7 as stated fails: the local head is absent (a checkout without any
    commit, so [PREV] holds no commit id), the fetch brings def456, and the
    tick of update mode resets and restarts instead of doing nothing. *)
Lemma absent_local_head_still_updates :
  let run := Embedded.main demo_update demo_app [quiet "def456"]
               unborn_state in
  HEAD unborn_state = None /\
  count is_reset (trace run) = 1 /\
  terms (trace run) = 1 /\
  spawns (trace run) = 2.
Proof. vm_compute. repeat split. Qed.

(** Where git accepts the repository but cannot resolve the
    remote-tracking ref, rev-parse prints the ref's name before it fails and
    the value read is not the sentinel: the guard of line 121 lets it
    through, the reset fails and the child is restarted all the same.  The
    value is then in [PREV], and the next such tick does nothing. *)
Lemma unresolved_ref_passes_guard :
  let o := mkOracle None true None true true None in
  let NEW := "origin/main" +++ newline +++ "none" in
  tracking unborn_state = None /\
  Embedded.tick demo_update o unborn_state
    = ([GitFetch false;
        Log ("[git] update:  -> " +++ NEW);
        GitReset NEW false;
        Kill SIGTERM 7; Reaped 7; Spawn 8],
       Ret tt (restarted NEW unborn_state)) /\
  Embedded.tick demo_update o (restarted NEW unborn_state)
    = ([GitFetch false], Ret tt (restarted NEW unborn_state)).
Proof. vm_compute. repeat split. Qed.

(** ** Watch mode *)

Lemma bind_count0 {A B} p (m : Sh A) (k : A -> Sh B) s :
  count p (trace (m s)) = 0 ->
  (forall a s', count p (trace (k a s')) = 0) ->
  count p (trace (bind m k s)) = 0.
Proof.
  intros Hm Hk. unfold bind. destruct (m s) as [t [a s'|s'|c s']]; cbn in *;
    try assumption.
  specialize (Hk a s'). destruct (k a s') as [t' r]. cbn in *.
  rewrite count_app. lia.
Qed.

Lemma watch_period_local cfg o s :
  Embedded.MODE cfg = "watch" ->
  count is_fetch (trace (Embedded.period cfg o s)) = 0 /\
  count is_reset (trace (Embedded.period cfg o s)) = 0.
Proof. intros Hm. run. rewrite Hm. cbn. cases; split; reflexivity. Qed.

Lemma watch_poll_local cfg ticks : forall s,
  Embedded.MODE cfg = "watch" ->
  count is_fetch (trace (Embedded.poll cfg ticks s)) = 0 /\
  count is_reset (trace (Embedded.poll cfg ticks s)) = 0.
Proof.
  induction ticks as [|o rest IH]; intros s Hm; [now cbn|].
  cbn [Embedded.poll].
  split; apply bind_count0;
    try (intros; now apply IH); now apply watch_period_local.
Qed.

(** C8, as amended: in watch mode no fetch and no reset is ever made.  A
    tick compares the local head, as the sleep left it and as git rev-parse
    gives it, with [PREV].  When they are equal the tick does nothing.  When
    they differ (somebody else has moved HEAD) the tick logs the change,
    runs pip if there is a manifest (no digest is consulted), sends SIGTERM
    to the child once and waits for it; once the wait has returned it starts
    the child once again and records the new head in [PREV]; if the child
    does not exit the tick stays in the wait and starts nothing. *)
Theorem watch_mode_local_comparison cfg o s ticks s0 :
  Embedded.MODE cfg = "watch" ->
  let s1 := after_sleep o s in
  let NEW := seen_head s1 in
  let run := Embedded.period cfg o s in
  (count is_fetch (trace (Embedded.poll cfg ticks s0)) = 0 /\
   count is_reset (trace (Embedded.poll cfg ticks s0)) = 0) /\
  trace run
    = (if String.eqb NEW (PREV s) then []
       else Log ("[git] " +++ "detected change: " +++ PREV s +++ " -> "
                 +++ NEW +++ " (watch-only)")
            :: match requirements s with
               | Some _ => [Log "[git] installing requirements...";
                            Pip (pip_ok o) false]
               | None => []
               end
            ++ Kill SIGTERM (APP_PID s)
            :: (if child_exits o
                then [Reaped (APP_PID s); Spawn (S (last_pid s))]
                else [])) /\
  result run
    = (if String.eqb NEW (PREV s) then Ret tt s1
       else if child_exits o then Ret tt (restarted NEW s1)
            else Blocked s1) /\
  terms (trace run) = (if String.eqb NEW (PREV s) then 0 else 1) /\
  spawns (trace run)
    = (if String.eqb NEW (PREV s) then 0
       else if child_exits o then 1 else 0) /\
  kills (trace run) = 0.
Proof.
  intros Hm. cbv zeta. split; [now apply watch_poll_local|].
  unfold after_sleep, restarted, seen_head, shown.
  run. rewrite Hm. cbn.
  destruct (outside_HEAD o) as [[h|]|]; cbn;
    try destruct (HEAD s) as [h'|]; cbn;
    try destruct (repo_ok s); cbn;
    match goal with
    | |- context [String.eqb ?x ?y] => destruct (String.eqb x y)
    end; cbn;
    destruct (requirements s); cbn; destruct (child_exits o); cbn;
    repeat split; reflexivity.
Qed.

Lemma watch_mode_local_comparison_witness :
  let o := moved "def456" in
  let s1 := after_sleep o demo_state in
  let NEW := seen_head s1 in
  let run := Embedded.period demo_watch o demo_state in
  (count is_fetch (trace (Embedded.poll demo_watch [o; o] demo_state)) = 0 /\
   count is_reset (trace (Embedded.poll demo_watch [o; o] demo_state)) = 0) /\
  trace run
    = (if String.eqb NEW (PREV demo_state) then []
       else Log ("[git] " +++ "detected change: " +++ PREV demo_state
                 +++ " -> " +++ NEW +++ " (watch-only)")
            :: match requirements demo_state with
               | Some _ => [Log "[git] installing requirements...";
                            Pip (pip_ok o) false]
               | None => []
               end
            ++ Kill SIGTERM (APP_PID demo_state)
            :: (if child_exits o
                then [Reaped (APP_PID demo_state);
                      Spawn (S (last_pid demo_state))]
                else [])) /\
  result run
    = (if String.eqb NEW (PREV demo_state) then Ret tt s1
       else if child_exits o then Ret tt (restarted NEW s1)
            else Blocked s1) /\
  terms (trace run) = (if String.eqb NEW (PREV demo_state) then 0 else 1) /\
  spawns (trace run)
    = (if String.eqb NEW (PREV demo_state) then 0
       else if child_exits o then 1 else 0) /\
  kills (trace run) = 0.
Proof.
  apply (watch_mode_local_comparison demo_watch (moved "def456") demo_state
           [moved "def456"; moved "def456"] demo_state).
  reflexivity.
Defined.

(** C8 as stated fails: in watch mode somebody moves HEAD from abc123 to
    def456, the tick detects it and signals the child, but the child does
    not exit: the tick stays in its wait and no restart is made. *)
Lemma watch_change_without_restart :
  let run := Embedded.period demo_watch (moved_stubborn "def456")
               demo_state in
  trace run
    = [Log "[git] detected change: abc123 -> def456 (watch-only)";
       Log "[git] installing requirements..."; Pip true false;
       Kill SIGTERM 7] /\
  terms (trace run) = 1 /\
  spawns (trace run) = 0 /\
  is_blocked (result run) = true.
Proof. vm_compute. repeat split. Qed.

(** The scenario of the specification: HEAD goes from abc123 to def456
    behind the supervisor's back. *)
Example watch_scenario :
  Embedded.period demo_watch (moved "def456") demo_state
  = ([Log "[git] detected change: abc123 -> def456 (watch-only)";
      Log "[git] installing requirements..."; Pip true false;
      Kill SIGTERM 7; Reaped 7; Spawn 8],
     Ret tt (restarted "def456" (set_HEAD (Some "def456") demo_state))).
Proof. reflexivity. Qed.

(** ** The exit code of the scripts *)




(** What the script has done when it reaches its [wait]. *)
Lemma entry_main_supervises cfg o0 s0 :
  exists t0 s1,
    pid_file s1 = Some (APP_PID s1) /\
    spawns t0 = 1 /\ terms t0 = 0 /\
    forall a ticks,
      GitEntrypoint.main cfg o0 a ticks s0
      = (t0 ++ trace (GitEntrypoint.supervise cfg a ticks s1),
         result (GitEntrypoint.supervise cfg a ticks s1)).
Proof.
  destruct (update_repo_once_returns cfg o0 s0)
    as (t & rc & s' & E & Ht & _ & Hs & _).
  exists (t ++ [Log ("[app] starting: " +++ GitEntrypoint.CMD cfg);
                Spawn (S (last_pid s'))]).
  exists (set_pid_file (Some (S (last_pid s')))
            (set_APP_PID (S (last_pid s'))
               (set_last_pid (S (last_pid s')) s'))).
  split; [reflexivity|].
  unfold spawns, terms in *. rewrite !count_app, Ht, Hs.
  split; [reflexivity|]. split; [reflexivity|].
  intros a ticks. unfold GitEntrypoint.main.
  rewrite (bind_ret _ _ _ _ _ _ (or_true_ret _ _ _ _ _ E)).
  unfold GitEntrypoint.echo, spawn_app, bind, get, modify, emit, ret. cbn.
  destruct (GitEntrypoint.supervise cfg a ticks _) as [t1 r1]. cbn.
  now rewrite <- app_assoc.
Qed.






(** ** git-entrypoint.sh never relaunches *)




(** A whole run: the remote moves during the second period; the watcher
    signals the child, which ends with 143, and so does the script. *)
Example entrypoint_run :
  GitEntrypoint.main demo_entry (quiet "abc123") demo_app
    [quiet "abc123"; quiet "def456"; quiet "def456"] installed_state
  = ([Flock; GitSetUrl; GitFetch true; Funlock;
      Log "[app] starting: python run.py"; Spawn 8;
      Flock; GitSetUrl; GitFetch true; Funlock;
      Flock; GitSetUrl; GitFetch true;
      Log "[git] update: abc123 -> def456"; GitReset "origin/main" true;
      Funlock;
      Log "[git] changes detected -> terminating app for restart";
      Kill SIGTERM 8; Reaped 8],
     Exited 143
       (mkState true (Some "def456") (Some "def456") (Some "d1") (Some "d1")
                (Some 8) "abc123" 8 8 true)).
Proof. reflexivity. Qed.

(** ** What install_reqs records when pip fails *)

(** As the script calls it, install_reqs goes on after a failing pip and
    writes the digest. *)
Lemma install_reqs_after_failure o s cur :
  requirements s = Some cur ->
  digest_matches (req_hash s) cur = false ->
  pip_ok o = false ->
  GitEntrypoint.install_reqs false o s
  = ([Log "[deps] installing requirements..."; Pip false true; WriteHash cur],
     Ret 0 (set_req_hash (Some cur) s)).
Proof.
  intros Hreq Hd Hpip. unfold digest_matches in Hd.
  runG. rewrite Hreq. cbn.
  destruct (req_hash s) as [h|]; cbn; try rewrite Hd; cbn; rewrite Hpip;
    reflexivity.
Qed.

(** Were [set -e] in force at the call, the shell would end at the failing
    pip and the digest would stay as it was. *)
Lemma install_reqs_under_errexit o s cur :
  requirements s = Some cur ->
  digest_matches (req_hash s) cur = false ->
  pip_ok o = false ->
  GitEntrypoint.install_reqs true o s
  = ([Log "[deps] installing requirements..."; Pip false true], Exited 1 s).
Proof.
  intros Hreq Hd Hpip. unfold digest_matches in Hd.
  runG. rewrite Hreq. cbn.
  destruct (req_hash s) as [h|]; cbn; try rewrite Hd; cbn; rewrite Hpip;
    reflexivity.
Qed.

(** In the supervised modes the script's run does not depend on what the
    application does. *)
Lemma supervised_main_ignores_child cfg a a' ticks s :
  Embedded.MODE cfg <> "off" -> git_dir s = true ->
  Embedded.main cfg a ticks s = Embedded.main cfg a' ticks s.
Proof.
  intros Hm Hg. unfold Embedded.main. rewrite (eqb_neq_false _ _ Hm).
  unfold bind at 1 3, get. cbn. now rewrite Hg.
Qed.

(** * Further properties of the two scripts *)

(** ** git-entrypoint.sh without a repository URL *)

Lemma check_without_url cfg o s :
  GitEntrypoint.REPO_URL cfg = "" ->
  GitEntrypoint.check cfg o s = ([], Ret 0 (after_sleep o s)).
Proof.
  intros H. unfold after_sleep. runG. rewrite H. cbn.
  destruct (outside_HEAD o); reflexivity.
Qed.

Lemma supervise_without_url cfg a ticks : forall s,
  GitEntrypoint.REPO_URL cfg = "" ->
  trace (GitEntrypoint.supervise cfg a ticks s)
    = match child_status a with
      | Some _ => [Reaped (APP_PID s)]
      | None => []
      end /\
  exit_code (result (GitEntrypoint.supervise cfg a ticks s)) = child_status a.
Proof.
  unfold child_status.
  induction ticks as [|o rest IH]; intros s Hurl.
  - cbn. destruct (starts a); cbn; try (split; reflexivity).
    destruct (own_exit a); split; reflexivity.
  - cbn [GitEntrypoint.supervise].
    destruct (starts a) eqn:Hst; try (split; reflexivity).
    rewrite (bind_ret _ _ _ _ _ _ (check_without_url cfg o s Hurl)).
    cbn [trace result fst snd Nat.eqb List.app].
    specialize (IH (after_sleep o s) Hurl).
    replace (APP_PID (after_sleep o s)) with (APP_PID s) in IH
      by (unfold after_sleep; destruct (outside_HEAD o); reflexivity).
    exact IH.
Qed.

(** X1: With REPO_URL empty git-entrypoint.sh is a plain launcher: whatever
    happens around it, the run consists of the start of the application and,
    if the application ends, the return of [wait]; nothing of git or pip is
    run, no signal is sent, and the exit code is the application's. *)
Theorem empty_repo_url_plain_launcher cfg o0 a ticks s :
  GitEntrypoint.REPO_URL cfg = "" ->
  trace (GitEntrypoint.main cfg o0 a ticks s)
    = [Log ("[app] starting: " +++ GitEntrypoint.CMD cfg);
       Spawn (S (last_pid s))]
      ++ match child_status a with
         | Some _ => [Reaped (S (last_pid s))]
         | None => []
         end /\
  exit_code (result (GitEntrypoint.main cfg o0 a ticks s)) = child_status a.
Proof.
  intros Hurl.
  assert (E : GitEntrypoint.update_repo_once cfg false o0 s = ([], Ret 0 s))
    by (runG; now rewrite Hurl).
  unfold GitEntrypoint.main.
  rewrite (bind_ret _ _ _ _ _ _ (or_true_ret _ _ _ _ _ E)).
  unfold GitEntrypoint.echo, spawn_app, bind, get, modify, emit, ret. cbn.
  match goal with
  | |- context [GitEntrypoint.supervise cfg a ticks ?s1] =>
      destruct (supervise_without_url cfg a ticks s1 Hurl) as [Ht He];
      destruct (GitEntrypoint.supervise cfg a ticks s1) as [t1 r1]
  end.
  cbn in *. subst t1. split; [reflexivity|exact He].
Qed.

Lemma empty_repo_url_plain_launcher_witness :
  let cfg := GitEntrypoint.mkConfig "/app" "" "main" "python run.py" in
  let ticks := [quiet "def456"; moved "0fed789"] in
  trace (GitEntrypoint.main cfg (quiet "def456") short_app ticks demo_state)
    = [Log ("[app] starting: " +++ GitEntrypoint.CMD cfg);
       Spawn (S (last_pid demo_state))]
      ++ match child_status short_app with
         | Some _ => [Reaped (S (last_pid demo_state))]
         | None => []
         end /\
  exit_code (result (GitEntrypoint.main cfg (quiet "def456") short_app ticks
                       demo_state)) = child_status short_app.
Proof.
  apply (empty_repo_url_plain_launcher
           (GitEntrypoint.mkConfig "/app" "" "main" "python run.py")
           (quiet "def456") short_app [quiet "def456"; moved "0fed789"]
           demo_state).
  reflexivity.
Defined.

(** ** update_repo_once, branch by branch *)

(** X2: Without a .git directory update_repo_once clones outside any lock and
    reports a change (status 1) whether or not the clone worked.  After a
    clone that worked, HEAD and the remote-tracking ref are at the remote
    head, and install_reqs has run on the tree just cloned: pip is run, with
    its output shown, when there is a manifest whose digest is not the one
    in .req.hash, and .req.hash then holds the manifest's digest.  After a
    clone that failed there is still no .git, and install_reqs has run on
    whatever the directory holds. *)
Theorem first_run_clones_and_reports cfg o s :
  GitEntrypoint.REPO_URL cfg <> "" ->
  git_dir s = false ->
  let announce :=
    Log ("[git] clone " +++ GitEntrypoint.REPO_URL cfg +++ " (branch "
         +++ GitEntrypoint.REPO_BRANCH cfg +++ ") into "
         +++ GitEntrypoint.APP_DIR cfg) in
  let install (manifest : option string) :=
    match manifest with
    | Some cur =>
        if digest_matches (req_hash s) cur then []
        else [Log "[deps] installing requirements...";
              Pip (pip_ok o) true; WriteHash cur]
    | None => []
    end in
  let recorded (manifest : option string) :=
    match manifest with Some cur => Some cur | None => req_hash s end in
  exists s',
    GitEntrypoint.update_repo_once cfg false o s
    = (match remote o with
       | Some _ => announce :: GitClone true :: install (tree_requirements o)
       | None => announce :: GitClone false :: install (requirements s)
       end, Ret 1 s') /\
    match remote o with
    | Some h =>
        git_dir s' = true /\ HEAD s' = Some h /\ tracking s' = Some h /\
        requirements s' = tree_requirements o /\
        req_hash s' = recorded (tree_requirements o)
    | None =>
        git_dir s' = false /\ HEAD s' = HEAD s /\ tracking s' = tracking s /\
        requirements s' = requirements s /\
        req_hash s' = recorded (requirements s)
    end.
Proof.
  intros Hurl Hg. cbv zeta. apply eqb_neq_false in Hurl.
  unfold digest_matches.
  runG. rewrite Hurl, Hg. cbn.
  destruct (remote o) as [h|]; cbn.
  - destruct (tree_requirements o) as [cur|]; cbn;
      [destruct (req_hash s) as [d|] eqn:Ed; cbn;
       [destruct (String.eqb_spec cur d) as [->|Hne]; cbn|]|];
      eexists; (split; [reflexivity|]); cbn; auto 10.
  - destruct (requirements s) as [cur|] eqn:Er; cbn;
      [destruct (req_hash s) as [d|] eqn:Ed; cbn;
       [destruct (String.eqb_spec cur d) as [->|Hne]; cbn|]|];
      eexists; (split; [reflexivity|]); cbn; auto 10.
Qed.

Lemma first_run_clones_and_reports_witness :
  let cfg := demo_entry in
  let o := quiet "def456" in
  let s := set_git_dir false unborn_state in
  let announce :=
    Log ("[git] clone " +++ GitEntrypoint.REPO_URL cfg +++ " (branch "
         +++ GitEntrypoint.REPO_BRANCH cfg +++ ") into "
         +++ GitEntrypoint.APP_DIR cfg) in
  let install (manifest : option string) :=
    match manifest with
    | Some cur =>
        if digest_matches (req_hash s) cur then []
        else [Log "[deps] installing requirements...";
              Pip (pip_ok o) true; WriteHash cur]
    | None => []
    end in
  let recorded (manifest : option string) :=
    match manifest with Some cur => Some cur | None => req_hash s end in
  exists s',
    GitEntrypoint.update_repo_once cfg false o s
    = (match remote o with
       | Some _ => announce :: GitClone true :: install (tree_requirements o)
       | None => announce :: GitClone false :: install (requirements s)
       end, Ret 1 s') /\
    match remote o with
    | Some h =>
        git_dir s' = true /\ HEAD s' = Some h /\ tracking s' = Some h /\
        requirements s' = tree_requirements o /\
        req_hash s' = recorded (tree_requirements o)
    | None =>
        git_dir s' = false /\ HEAD s' = HEAD s /\ tracking s' = tracking s /\
        requirements s' = requirements s /\
        req_hash s' = recorded (requirements s)
    end.
Proof.
  apply (first_run_clones_and_reports demo_entry (quiet "def456")
           (set_git_dir false unborn_state)); [discriminate|reflexivity].
Defined.

(** The scenario of a first start: nothing in the directory yet. *)
Example first_run_sample :
  GitEntrypoint.update_repo_once demo_entry false (quiet "def456")
    (set_git_dir false unborn_state)
  = ([Log "[git] clone https://example.org/panel.git (branch main) into /app";
      GitClone true;
      Log "[deps] installing requirements..."; Pip true true;
      WriteHash "d1"],
     Ret 1 (mkState true (Some "def456") (Some "def456") (Some "d1")
                    (Some "d1") None "" 7 7 true)).
Proof. reflexivity. Qed.

Lemma update_repo_once_steady cfg o s h :
  GitEntrypoint.REPO_URL cfg <> "" ->
  git_dir s = true -> HEAD s = Some h -> tracking s = Some h ->
  remote_stays h o ->
  GitEntrypoint.update_repo_once cfg false o s
  = ([Flock; GitSetUrl;
      GitFetch (match remote o with Some _ => true | None => false end);
      Funlock],
     Ret 0 s).
Proof.
  intros Hurl Hg Hh Ht Hr. apply eqb_neq_false in Hurl.
  runG. rewrite Hurl, Hg. cbn.
  destruct s as [gd hd tr rq rh pf pv ap lp ok]. cbn in *. subst.
  destruct Hr as [Hr|Hr]; rewrite Hr; cbn; rewrite String.eqb_refl; cbn;
    reflexivity.
Qed.

Lemma update_repo_once_catches_up cfg o s h :
  GitEntrypoint.REPO_URL cfg <> "" ->
  git_dir s = true ->
  remote o = Some h -> h <> "0" -> h <> "HEAD" +++ newline +++ "0" ->
  reset_ok o = true ->
  exists t s1,
    GitEntrypoint.update_repo_once cfg false o s
      = (t, Ret match HEAD s with
                | Some c => if String.eqb c h then 0 else 1
                | None => 1
                end s1) /\
    git_dir s1 = true /\ HEAD s1 = Some h /\ tracking s1 = Some h.
Proof.
  intros Hurl Hg Hr H0 H0n Hreset.
  pose proof (eqb_neq_false _ _ Hurl) as Hurl'.
  assert (H0' : String.eqb "0" h = false)
    by (apply eqb_neq_false; congruence).
  assert (H0n' : String.eqb ("HEAD" +++ newline +++ "0") h = false)
    by (apply eqb_neq_false; congruence).
  destruct s as [gd hd tr rq rh pf pv ap lp ok]. cbn in Hg. subst gd.
  runG. rewrite Hurl', Hr, Hreset. cbn.
  destruct hd as [c|]; cbn;
    [destruct (String.eqb_spec c h) as [->|Hne]; cbn
    | destruct ok; cbn; [rewrite H0n'|rewrite H0']; cbn];
    cases; (eexists; eexists; split; [reflexivity|]); cbn; auto.
Qed.

(** X3: In an existing checkout, a check whose fetch and reset both work leaves
    HEAD and the remote-tracking ref at the fetched head h and reports a
    change exactly when HEAD was not at h before; a check made right after,
    with the remote still at h, reports nothing and neither resets nor
    installs.  (h is a commit id: it is none of the texts read for a HEAD
    that cannot be resolved.) *)
Theorem update_then_quiet cfg o o' s h :
  GitEntrypoint.REPO_URL cfg <> "" ->
  git_dir s = true ->
  remote o = Some h -> h <> "0" -> h <> "HEAD" +++ newline +++ "0" ->
  reset_ok o = true ->
  remote_stays h o' ->
  exists t s1 t2,
    GitEntrypoint.update_repo_once cfg false o s
      = (t, Ret match HEAD s with
                | Some c => if String.eqb c h then 0 else 1
                | None => 1
                end s1) /\
    HEAD s1 = Some h /\ tracking s1 = Some h /\
    GitEntrypoint.update_repo_once cfg false o' s1 = (t2, Ret 0 s1) /\
    count is_reset t2 = 0 /\ installs t2 = 0.
Proof.
  intros Hurl Hg Hr H0 H0n Hreset Hstay.
  destruct (update_repo_once_catches_up cfg o s h Hurl Hg Hr H0 H0n Hreset)
    as (t & s1 & E & G1 & H1 & T1).
  exists t, s1. eexists. split; [exact E|].
  split; [exact H1|]. split; [exact T1|].
  split; [apply (update_repo_once_steady cfg o' s1 h); auto|].
  split; reflexivity.
Qed.

Lemma update_then_quiet_witness :
  exists t s1 t2,
    GitEntrypoint.update_repo_once demo_entry false (quiet "def456")
      demo_state
      = (t, Ret match HEAD demo_state with
                | Some c => if String.eqb c "def456" then 0 else 1
                | None => 1
                end s1) /\
    HEAD s1 = Some "def456" /\ tracking s1 = Some "def456" /\
    GitEntrypoint.update_repo_once demo_entry false
      (mkOracle None true None true true None) s1 = (t2, Ret 0 s1) /\
    count is_reset t2 = 0 /\ installs t2 = 0.
Proof.
  apply (update_then_quiet demo_entry (quiet "def456")
           (mkOracle None true None true true None) demo_state "def456");
    try reflexivity; try discriminate.
  left. reflexivity.
Defined.

(** The condition on h cannot be dropped: a fetched head that read like an
    unresolvable HEAD would pass for no change. *)
Example update_then_quiet_needs_commit_id :
  let h := "HEAD" +++ newline +++ "0" in
  GitEntrypoint.update_repo_once demo_entry false (quiet h) unborn_state
  = ([Flock; GitSetUrl; GitFetch true; Funlock],
     Ret 0 (set_tracking (Some h) unborn_state)).
Proof. reflexivity. Qed.

(** X4: In an existing checkout, a head that cannot be resolved never reads as
    "no change": the fallbacks written for HEAD and for the remote-tracking
    ref differ (0 and 1), so whenever either side is missing after the fetch
    the check resets (in vain if it is the remote-tracking ref that is
    missing), runs install_reqs and reports a change.  (The commit ids are
    none of the texts read for a head that cannot be resolved.) *)
Theorem missing_head_reads_as_change cfg o s :
  GitEntrypoint.REPO_URL cfg <> "" ->
  git_dir s = true ->
  HEAD s = None \/ after_fetch o s = None ->
  HEAD s <> Some "1" ->
  HEAD s <> Some (("origin/" +++ GitEntrypoint.REPO_BRANCH cfg)
                  +++ newline +++ "1") ->
  after_fetch o s <> Some "0" ->
  after_fetch o s <> Some ("HEAD" +++ newline +++ "0") ->
  exists t s',
    GitEntrypoint.update_repo_once cfg false o s = (t, Ret 1 s') /\
    count is_reset t = 1 /\
    match after_fetch o s with
    | None =>
        HEAD s' = HEAD s /\
        In (GitReset ("origin/" +++ GitEntrypoint.REPO_BRANCH cfg) false) t
    | Some _ => True
    end.
Proof.
  intros Hurl Hg Habs H1 H1n H0 H0n. apply eqb_neq_false in Hurl.
  unfold after_fetch in *.
  destruct s as [gd hd tr rq rh pf pv ap lp ok]. cbn in *. subst gd.
  pose (name := "origin/" +++ GitEntrypoint.REPO_BRANCH cfg).
  assert (Elocal : forall c, Some c <> Some "0" ->
                     Some c <> Some ("HEAD" +++ newline +++ "0") ->
                     String.eqb (if ok then "HEAD" +++ newline +++ "0"
                                 else "0") c = false).
  { intros c A B. apply eqb_neq_false. destruct ok; congruence. }
  assert (Eremote : forall c, Some c <> Some "1" ->
                      Some c <> Some (name +++ newline +++ "1") ->
                      String.eqb c (if ok then name +++ newline +++ "1"
                                    else "1") = false).
  { intros c A B. apply eqb_neq_false. destruct ok; congruence. }
  assert (Eboth : String.eqb (if ok then "HEAD" +++ newline +++ "0" else "0")
                    (if ok then name +++ newline +++ "1" else "1") = false).
  { apply eqb_neq_false. destruct ok; [|discriminate].
    apply (suffix_differs "HEAD" name (newline +++ "0") (newline +++ "1"));
      [reflexivity|discriminate]. }
  subst name.
  runG. rewrite Hurl. cbn.
  destruct (remote o) as [h|] eqn:Hr; cbn.
  - destruct Habs as [->|Habs]; [|discriminate]. cbn.
    specialize (Elocal h H0 H0n).
    destruct ok; cbn; rewrite Elocal; cbn;
      cases; (eexists; eexists; split; [reflexivity|]); cbn;
      (split; [reflexivity|exact I]).
  - destruct tr as [c|]; cbn.
    + destruct Habs as [->|Habs]; [|discriminate]. cbn.
      specialize (Elocal c H0 H0n).
      destruct ok; cbn; rewrite Elocal; cbn;
        cases; (eexists; eexists; split; [reflexivity|]); cbn;
        (split; [reflexivity|exact I]).
    + destruct hd as [c|]; cbn in *;
        [specialize (Eremote c H1 H1n)|clear Eremote];
        destruct ok; cbn;
        try rewrite Eremote; try rewrite Eboth; cbn;
        cases; (eexists; eexists; split; [reflexivity|]); cbn;
        (split; [reflexivity|]); (split; [reflexivity|]);
        cbn; auto 10.
Qed.

Lemma missing_head_reads_as_change_witness :
  exists t s',
    GitEntrypoint.update_repo_once demo_entry false
      (mkOracle None true None true true None) unborn_state = (t, Ret 1 s') /\
    count is_reset t = 1 /\
    match after_fetch (mkOracle None true None true true None) unborn_state
    with
    | None =>
        HEAD s' = HEAD unborn_state /\
        In (GitReset ("origin/" +++ GitEntrypoint.REPO_BRANCH demo_entry)
              false) t
    | Some _ => True
    end.
Proof.
  apply (missing_head_reads_as_change demo_entry
           (mkOracle None true None true true None) unborn_state);
    try reflexivity; try discriminate.
  left. reflexivity.
Defined.

(** Nor can the conditions on the commit ids here. *)
Example missing_head_needs_commit_id :
  let c := "origin/main" +++ newline +++ "1" in
  let s := set_HEAD (Some c) unborn_state in
  GitEntrypoint.update_repo_once demo_entry false
    (mkOracle None true None true true None) s
  = ([Flock; GitSetUrl; GitFetch false; Funlock], Ret 0 s).
Proof. reflexivity. Qed.

(** ** install_reqs after a failed install *)

(** X5: As the script calls it, install_reqs does not try again after a failing
    pip: the failing call records the manifest's digest all the same, so the
    next call on the same manifest installs nothing. *)
Theorem failed_install_is_not_retried o o' s cur :
  requirements s = Some cur ->
  digest_matches (req_hash s) cur = false ->
  pip_ok o = false ->
  let both := (_ <- GitEntrypoint.install_reqs false o ;;
               GitEntrypoint.install_reqs false o') s in
  trace both
    = [Log "[deps] installing requirements..."; Pip false true;
       WriteHash cur] /\
  result both = Ret 0 (set_req_hash (Some cur) s).
Proof.
  intros Hreq Hd Hpip. cbv zeta.
  rewrite (bind_ret _ _ _ _ _ _
             (install_reqs_after_failure o s cur Hreq Hd Hpip)).
  runG. rewrite Hreq. cbn. rewrite String.eqb_refl. cbn. split; reflexivity.
Qed.

Lemma failed_install_is_not_retried_witness :
  let both := (_ <- GitEntrypoint.install_reqs false
                      (pip_fails (quiet "abc123")) ;;
               GitEntrypoint.install_reqs false (quiet "abc123"))
                demo_state in
  trace both
    = [Log "[deps] installing requirements..."; Pip false true;
       WriteHash "d1"] /\
  result both = Ret 0 (set_req_hash (Some "d1") demo_state).
Proof.
  apply (failed_install_is_not_retried (pip_fails (quiet "abc123"))
           (quiet "abc123") demo_state "d1"); reflexivity.
Defined.

(** ** The embedded entrypoint as a plain launcher *)

(** X6: In mode off, and in any mode when the working directory has no .git,
    the embedded entrypoint only logs and execs the application: whatever
    the polling periods would bring, it starts no background child, runs no
    git or pip command, sends no signal and leaves the checkout as it is;
    its exit code is the application's. *)
Theorem no_watcher_without_git cfg a ticks s :
  Embedded.MODE cfg = "off" \/ git_dir s = false ->
  let run := Embedded.main cfg a ticks s in
  trace run
    = (if String.eqb (Embedded.MODE cfg) "off" then []
       else [Log "[git] no .git here -> running app without watcher"])
      ++ Log ("[git] start app: " +++ Embedded.APP_CMD cfg)
      :: match starts a with Started => [Exec] | _ => [] end /\
  exit_code (result run) = child_status a /\
  final (result run) = s.
Proof.
  intros H. cbv zeta. unfold Embedded.main, Embedded.run_app, Embedded.log,
    child_status.
  destruct (String.eqb (Embedded.MODE cfg) "off") eqn:Em.
  - unfold bind, emit, exit, block, ret. cbn.
    destruct (starts a); cbn; try (repeat split; reflexivity).
    destruct (own_exit a); repeat split; reflexivity.
  - destruct H as [H|H]; [rewrite H in Em; discriminate|].
    unfold bind, get, emit, exit, block, ret. cbn. rewrite H. cbn.
    destruct (starts a); cbn; try (repeat split; reflexivity).
    destruct (own_exit a); repeat split; reflexivity.
Qed.

Lemma no_watcher_without_git_witness :
  let s := set_git_dir false demo_state in
  let run := Embedded.main demo_update short_app [quiet "def456"] s in
  trace run
    = (if String.eqb (Embedded.MODE demo_update) "off" then []
       else [Log "[git] no .git here -> running app without watcher"])
      ++ Log ("[git] start app: " +++ Embedded.APP_CMD demo_update)
      :: match starts short_app with Started => [Exec] | _ => [] end /\
  exit_code (result run) = child_status short_app /\
  final (result run) = s.
Proof.
  apply (no_watcher_without_git demo_update short_app [quiet "def456"]
           (set_git_dir false demo_state)).
  right. reflexivity.
Defined.

(** ** Update mode looks at the remote-tracking ref only *)



(** X8: Update mode never reads the local HEAD after start-up: what a tick does
    is the same wherever HEAD stands, so a HEAD moved by someone else is
    neither noticed nor put back as long as the remote-tracking ref, as
    git rev-parse gives it after the fetch, stays at [PREV]. *)
Theorem update_mode_ignores_local_head cfg o s h :
  Embedded.MODE cfg = "update" ->
  trace (Embedded.period cfg o (set_HEAD h s))
    = trace (Embedded.period cfg o s) /\
  PREV (final (result (Embedded.period cfg o (set_HEAD h s))))
    = PREV (final (result (Embedded.period cfg o s))) /\
  (if String.eqb (seen_origin cfg (repo_ok s) (after_fetch o s)) (PREV s)
   then trace (Embedded.period cfg o s)
          = [GitFetch match remote o with Some _ => true | None => false end]
        /\ HEAD (final (result (Embedded.period cfg o s)))
           = HEAD (after_sleep o s)
   else True).
Proof.
  intros Hm. unfold after_fetch, after_sleep, seen_origin, shown.
  run. rewrite Hm. cbn.
  destruct (outside_HEAD o) as [x|]; destruct (remote o) as [r|]; cbn;
    try destruct (tracking s) as [c|]; cbn;
    try destruct (repo_ok s); cbn;
    match goal with
    | |- context [String.eqb ?x (PREV s)] =>
        destruct (String.eqb x (PREV s)); cbn
    end;
    cases; repeat split; reflexivity.
Qed.

Lemma update_mode_ignores_local_head_witness :
  let o := mkOracle (Some "abc123") true None true true
             (Some (Some "0fed789")) in
  trace (Embedded.period demo_update o (set_HEAD None demo_state))
    = trace (Embedded.period demo_update o demo_state) /\
  PREV (final (result (Embedded.period demo_update o
                         (set_HEAD None demo_state))))
    = PREV (final (result (Embedded.period demo_update o demo_state))) /\
  (if String.eqb (seen_origin demo_update (repo_ok demo_state)
                    (after_fetch o demo_state)) (PREV demo_state)
   then trace (Embedded.period demo_update o demo_state)
          = [GitFetch match remote o with Some _ => true | None => false end]
        /\ HEAD (final (result (Embedded.period demo_update o demo_state)))
           = HEAD (after_sleep o demo_state)
   else True).
Proof.
  apply (update_mode_ignores_local_head demo_update
           (mkOracle (Some "abc123") true None true true
              (Some (Some "0fed789")))
           demo_state None).
  reflexivity.
Defined.

(** ** Counting the restarts of a whole run *)

Lemma last_nonempty {A} (x : A) l : forall d d',
  last (x :: l) d = last (x :: l) d'.
Proof.
  revert x. induction l as [|y l IH]; intros x d d'; [reflexivity|].
  cbn [last]. apply (IH y).
Qed.

Lemma last_cons {A} (h : A) l d : last (h :: l) d = last l h.
Proof. destruct l as [|y l]; [reflexivity|]. cbn [last]. apply last_nonempty. Qed.

Lemma watch_period_step cfg o s :
  Embedded.MODE cfg = "watch" -> child_exits o = true ->
  let NEW := seen_head (after_sleep o s) in
  exists t s',
    Embedded.period cfg o s = (t, Ret tt s') /\
    terms t = (if String.eqb NEW (PREV s) then 0 else 1) /\
    spawns t = (if String.eqb NEW (PREV s) then 0 else 1) /\
    PREV s' = NEW /\ HEAD s' = HEAD (after_sleep o s) /\
    repo_ok s' = repo_ok s.
Proof.
  intros Hm Hc. unfold after_sleep, seen_head, shown. cbv zeta.
  run. rewrite Hm, Hc. cbn.
  destruct (outside_HEAD o) as [[h|]|]; cbn;
    try destruct (HEAD s) as [h'|] eqn:EH; cbn;
    try destruct (repo_ok s) eqn:EO; cbn;
    match goal with
    | |- context [String.eqb ?x ?y] => destruct (String.eqb_spec x y)
    end; cbn;
    cases; (eexists; eexists; split; [reflexivity|]); cbn;
    repeat split; try reflexivity; congruence.
Qed.

(** X9: In watch mode, as long as the child exits when told to, the run restarts
    the child exactly as often as the local head read at a tick differs from
    the one read before (a HEAD that cannot be resolved reads as the text
    git rev-parse leaves, followed by none), and [PREV] ends as the head
    read last. *)
Theorem watch_restarts_once_per_change cfg ticks : forall s,
  Embedded.MODE cfg = "watch" ->
  Forall (fun o => child_exits o = true) ticks ->
  exists t s',
    Embedded.poll cfg ticks s = (t, Ret tt s') /\
    terms t = changes (PREV s) (watched (repo_ok s) (HEAD s) ticks) /\
    spawns t = changes (PREV s) (watched (repo_ok s) (HEAD s) ticks) /\
    PREV s' = last (watched (repo_ok s) (HEAD s) ticks) (PREV s).
Proof.
  induction ticks as [|o rest IH]; intros s Hm Hall.
  - exists [], s. cbn. auto.
  - inversion Hall as [|? ? Hc Hrest]; subst.
    destruct (watch_period_step cfg o s Hm Hc)
      as (t & s1 & E & Ht & Hs & Hp & Hh & Hok).
    destruct (IH s1 Hm Hrest) as (t' & s2 & E' & Ht' & Hs' & Hp').
    exists (t ++ t'), s2. cbn [Embedded.poll].
    rewrite (bind_ret _ _ _ _ _ _ E), E'. cbn [trace result fst snd].
    unfold terms, spawns in *. rewrite !count_app, Ht, Hs, Ht', Hs', Hp'.
    rewrite Hp, Hh, Hok. unfold after_sleep, seen_head.
    cbn [watched changes].
    destruct (outside_HEAD o) as [x|]; cbn [HEAD set_HEAD repo_ok];
      (split; [reflexivity|]); (split; [reflexivity|]); (split; [reflexivity|]);
      now rewrite last_cons.
Qed.

Lemma watch_restarts_once_per_change_witness :
  let ticks := [moved "def456"; mkOracle None true None true true None;
                mkOracle None true None true true (Some None);
                moved "def456"] in
  exists t s',
    Embedded.poll demo_watch ticks demo_state = (t, Ret tt s') /\
    terms t = changes (PREV demo_state)
                (watched (repo_ok demo_state) (HEAD demo_state) ticks) /\
    spawns t = changes (PREV demo_state)
                 (watched (repo_ok demo_state) (HEAD demo_state) ticks) /\
    PREV s' = last (watched (repo_ok demo_state) (HEAD demo_state) ticks)
                (PREV demo_state).
Proof.
  apply (watch_restarts_once_per_change demo_watch
           [moved "def456"; mkOracle None true None true true None;
            mkOracle None true None true true (Some None);
            moved "def456"] demo_state);
    [reflexivity|repeat constructor].
Defined.

(** The run of the witness: three changes, the second one being HEAD
    becoming unresolvable. *)
Example watch_run_sample :
  let ticks := [moved "def456"; mkOracle None true None true true None;
                mkOracle None true None true true (Some None);
                moved "def456"] in
  watched true (Some "abc123") ticks
    = ["def456"; "def456"; "HEAD" +++ newline +++ "none"; "def456"] /\
  terms (trace (Embedded.poll demo_watch ticks demo_state)) = 3.
Proof. split; reflexivity. Qed.

Lemma update_period_step cfg o s :
  Embedded.MODE cfg = "update" -> child_exits o = true ->
  let NEW := seen_origin cfg (repo_ok s) (after_fetch o s) in
  let changed := negb (String.eqb NEW (PREV s))
                 && negb (String.eqb NEW "none") in
  exists t s',
    Embedded.period cfg o s = (t, Ret tt s') /\
    terms t = (if changed then 1 else 0) /\
    spawns t = (if changed then 1 else 0) /\
    count is_reset t = (if changed then 1 else 0) /\
    PREV s' = (if changed then NEW else PREV s) /\
    tracking s' = after_fetch o s /\
    repo_ok s' = repo_ok s.
Proof.
  intros Hm Hc. unfold after_fetch, seen_origin, shown. cbv zeta.
  run. rewrite Hm, Hc. cbn.
  destruct (outside_HEAD o) as [x|]; destruct (remote o) as [r|]; cbn;
    try destruct (tracking s) as [c|] eqn:ET; cbn;
    try destruct (repo_ok s) eqn:EO; cbn;
    match goal with
    | |- context [negb (String.eqb ?x (PREV s)) && ?b] =>
        destruct (negb (String.eqb x (PREV s)) && b)
    end; cbn; rewrite ?ET; cbn;
    cases; (eexists; eexists; split; [reflexivity|]); cbn;
    repeat split; try reflexivity; congruence.
Qed.

(** X10: In update mode, as long as the child exits when told to, the run resets
    and restarts exactly once for every tick at which the value read for the
    remote-tracking head after the fetch is not the sentinel none and
    differs from the value acted on last, whether the fetches themselves
    work or not.  A ref that cannot be resolved in a repository git accepts
    reads as its name followed by none, and so counts once. *)
Theorem update_restarts_once_per_change cfg ticks : forall s,
  Embedded.MODE cfg = "update" ->
  Forall (fun o => child_exits o = true) ticks ->
  let heads := fetched cfg (repo_ok s) (tracking s) ticks in
  exists t s',
    Embedded.poll cfg ticks s = (t, Ret tt s') /\
    terms t = known_changes (PREV s) heads /\
    spawns t = known_changes (PREV s) heads /\
    count is_reset t = known_changes (PREV s) heads.
Proof.
  induction ticks as [|o rest IH]; intros s Hm Hall; cbv zeta.
  - exists [], s. cbn. auto.
  - inversion Hall as [|? ? Hc Hrest]; subst.
    destruct (update_period_step cfg o s Hm Hc)
      as (t & s1 & E & Ht & Hs & Hr & Hp & Htr & Hok).
    destruct (IH s1 Hm Hrest) as (t' & s2 & E' & Ht' & Hs' & Hr').
    exists (t ++ t'), s2. cbn [Embedded.poll].
    rewrite (bind_ret _ _ _ _ _ _ E), E'. cbn [trace result fst snd].
    unfold terms, spawns in *.
    rewrite !count_app, Ht, Hs, Hr, Ht', Hs', Hr', Hp, Htr, Hok.
    unfold after_fetch. cbn [fetched known_changes].
    destruct (negb _ && negb _); auto.
Qed.

Lemma update_restarts_once_per_change_witness :
  let ticks := [quiet "abc123"; quiet "def456";
                mkOracle None true None true true None; quiet "0fed789"] in
  let heads := fetched demo_update (repo_ok demo_state)
                 (tracking demo_state) ticks in
  exists t s',
    Embedded.poll demo_update ticks demo_state = (t, Ret tt s') /\
    terms t = known_changes (PREV demo_state) heads /\
    spawns t = known_changes (PREV demo_state) heads /\
    count is_reset t = known_changes (PREV demo_state) heads.
Proof.
  apply (update_restarts_once_per_change demo_update
           [quiet "abc123"; quiet "def456";
            mkOracle None true None true true None; quiet "0fed789"]
           demo_state);
    [reflexivity|repeat constructor].
Defined.

(** A run over a ref that cannot be resolved: the first tick reads the
    ref's name followed by none, resets in vain and restarts; the second
    tick reads the same and does nothing. *)
Example update_run_unresolved :
  let ticks := [mkOracle None true None true true None;
                mkOracle None true None true true None] in
  fetched demo_update true None ticks
    = ["origin/main" +++ newline +++ "none";
       "origin/main" +++ newline +++ "none"] /\
  known_changes (PREV unborn_state) (fetched demo_update true None ticks) = 1 /\
  terms (trace (Embedded.poll demo_update ticks unborn_state)) = 1 /\
  count is_reset (trace (Embedded.poll demo_update ticks unborn_state)) = 1.
Proof. repeat split; reflexivity. Qed.

(** ** A child that does not exit *)

(** X11: When a tick signals the child and the child does not exit, the
    supervisor stays in [wait]: the rest of the run never happens, no new
    child is started, and the change is not recorded in [PREV]. *)
Theorem stubborn_child_stalls_the_loop cfg o rest s :
  child_exits o = false ->
  terms (trace (Embedded.period cfg o s)) <> 0 ->
  Embedded.poll cfg (o :: rest) s = Embedded.period cfg o s /\
  is_blocked (result (Embedded.period cfg o s)) = true /\
  spawns (trace (Embedded.period cfg o s)) = 0 /\
  PREV (final (result (Embedded.period cfg o s))) = PREV s.
Proof.
  intros Hc Ht.
  assert (H : exists t s', Embedded.period cfg o s = (t, Blocked s') /\
                           spawns t = 0 /\ PREV s' = PREV s).
  { revert Ht. run. rewrite Hc. cbn.
    cases; intros Ht; try (exfalso; apply Ht; reflexivity);
      eexists; eexists; (split; [reflexivity|]); cbn; auto. }
  destruct H as (t & s' & E & Hs & Hp).
  cbn [Embedded.poll]. rewrite (bind_blocked _ _ _ _ _ E), E. cbn.
  auto.
Qed.

Lemma stubborn_child_stalls_the_loop_witness :
  Embedded.poll demo_update [stubborn "def456"; quiet "0fed789"] demo_state
    = Embedded.period demo_update (stubborn "def456") demo_state /\
  is_blocked (result (Embedded.period demo_update (stubborn "def456")
                        demo_state)) = true /\
  spawns (trace (Embedded.period demo_update (stubborn "def456")
                   demo_state)) = 0 /\
  PREV (final (result (Embedded.period demo_update (stubborn "def456")
                         demo_state))) = PREV demo_state.
Proof.
  apply (stubborn_child_stalls_the_loop demo_update (stubborn "def456")
           [quiet "0fed789"] demo_state); [reflexivity|].
  vm_compute. discriminate.
Defined.

(** ** One child at a time *)

Lemma one_child_app t : forall live u,
  one_child live (t ++ u)
  = one_child live t && one_child (live_after live t) u.
Proof.
  induction t as [|e t IH]; intros live u; [reflexivity|].
  destruct e; cbn; try apply IH.
  - destruct live as [q|]; [|reflexivity].
    rewrite IH. now rewrite Bool.andb_assoc.
  - destruct live as [q|]; [|reflexivity].
    rewrite IH. now rewrite Bool.andb_assoc.
  - destruct live as [q|]; [reflexivity|]. apply IH.
Qed.

Lemma period_one_child cfg o s :
  one_child (Some (APP_PID s)) (trace (Embedded.period cfg o s)) = true /\
  match result (Embedded.period cfg o s) with
  | Ret _ s' =>
      live_after (Some (APP_PID s)) (trace (Embedded.period cfg o s))
      = Some (APP_PID s')
  | _ => True
  end.
Proof.
  run. cases; cbn; rewrite ?Nat.eqb_refl; split; reflexivity.
Qed.

Lemma poll_one_child cfg ticks : forall s,
  one_child (Some (APP_PID s)) (trace (Embedded.poll cfg ticks s)) = true.
Proof.
  induction ticks as [|o rest IH]; intros s; [reflexivity|].
  cbn [Embedded.poll].
  destruct (period_one_child cfg o s) as [H1 H2].
  unfold bind.
  destruct (Embedded.period cfg o s) as [t [[] s'|s'|c s']]; cbn in *;
    try exact H1.
  specialize (IH s').
  destruct (Embedded.poll cfg rest s') as [t' r']. cbn in *.
  rewrite one_child_app, H1, H2. exact IH.
Qed.

Lemma quiet_check t : forall live,
  terms t = 0 -> kills t = 0 -> spawns t = 0 -> count is_reaped t = 0 ->
  one_child live t = true /\ live_after live t = live.
Proof.
  induction t as [|e t IH]; intros live Ht Hk Hs Hr; [now split|].
  unfold terms, kills, spawns in *. rewrite count_cons in Ht, Hk, Hs, Hr.
  destruct e; cbn in *; try (apply IH; lia); try lia.
  destruct sig; cbn in *; lia.
Qed.

Lemma supervise_one_child cfg a ticks : forall s,
  pid_file s = Some (APP_PID s) ->
  one_child (Some (APP_PID s))
    (trace (GitEntrypoint.supervise cfg a ticks s)) = true.
Proof.
  induction ticks as [|o rest IH]; intros s Hpid.
  - cbn. destruct (starts a); cbn; rewrite ?Nat.eqb_refl; try reflexivity.
    destruct (own_exit a); cbn; rewrite ?Nat.eqb_refl; reflexivity.
  - cbn [GitEntrypoint.supervise].
    destruct (starts a) eqn:Hst;
      try (cbn; rewrite ?Nat.eqb_refl; reflexivity).
    destruct (check_returns cfg o s)
      as (t & rc & s' & E & Ht & Hk & Hs & Hr & Hap & Hpf & _).
    rewrite (bind_ret _ _ _ _ _ _ E). cbn [trace result fst snd].
    destruct (quiet_check t (Some (APP_PID s)) Ht Hk Hs Hr) as [Q1 Q2].
    rewrite one_child_app, Q1, Q2. cbn [andb].
    assert (Hpid' : pid_file s' = Some (APP_PID s')) by congruence.
    specialize (IH s' Hpid'). rewrite Hap in IH.
    destruct (Nat.eqb rc 0); [exact IH|].
    unfold GitEntrypoint.echo, GitEntrypoint.finish, or_true, kill,
      bind, get, emit, ret, exit. cbn.
    rewrite Hpf, Hpid, Hap. cbn.
    destruct (on_TERM a) as [st|]; cbn.
    + rewrite !Nat.eqb_refl. cbn. rewrite Hap, !Nat.eqb_refl. reflexivity.
    + destruct (GitEntrypoint.supervise cfg a rest s') as [t1 r1].
      cbn in *. rewrite Nat.eqb_refl. exact IH.
Qed.

(** X12: Both scripts keep one child at a time, in every run: a child is started
    only when none is live (at launch, or after [wait] has returned for the
    previous one), and every signal and every [wait] is for the child that
    is live then. *)
Theorem one_child_at_a_time cfgE cfgG o0 a ticks s :
  one_child None (trace (Embedded.main cfgE a ticks s)) = true /\
  one_child None (trace (GitEntrypoint.main cfgG o0 a ticks s)) = true.
Proof.
  split.
  - unfold Embedded.main, Embedded.run_app, Embedded.current_head,
      Embedded.log, rev_parse_or, spawn_app.
    destruct (String.eqb (Embedded.MODE cfgE) "off").
    + unfold bind, emit, exit, block, ret. cbn.
      destruct (starts a); cbn; try reflexivity.
      destruct (own_exit a); reflexivity.
    + unfold bind at 1, get. cbn.
      destruct (git_dir s); cbn.
      * unfold bind, get, modify, emit, ret. cbn.
        destruct (HEAD s); cbn; try destruct (repo_ok s); cbn;
          match goal with
          | |- context [Embedded.poll cfgE ticks ?s1] =>
              pose proof (poll_one_child cfgE ticks s1) as H;
              destruct (Embedded.poll cfgE ticks s1) as [t1 r1]
          end; exact H.
      * unfold bind, emit, exit, block, ret. cbn.
        destruct (starts a); cbn; try reflexivity.
        destruct (own_exit a); reflexivity.
  - destruct (entry_main_supervises cfgG o0 s) as (t0 & s1 & Hp & _ & _ & E).
    destruct (update_repo_once_returns cfgG o0 s)
      as (t & rc & s' & E0 & Ht & Hk & Hs & Hr & _).
    unfold GitEntrypoint.main.
    rewrite (bind_ret _ _ _ _ _ _ (or_true_ret _ _ _ _ _ E0)).
    unfold GitEntrypoint.echo, spawn_app, bind, get, modify, emit, ret. cbn.
    match goal with
    | |- context [GitEntrypoint.supervise cfgG a ticks ?s2] =>
        pose proof (supervise_one_child cfgG a ticks s2 eq_refl) as H;
        destruct (GitEntrypoint.supervise cfgG a ticks s2) as [t1 r1]
    end.
    cbn in *.
    destruct (quiet_check t None Ht Hk Hs Hr) as [Q1 Q2].
    rewrite one_child_app, Q1, Q2. cbn. exact H.
Qed.

(** ** More on the lock *)

(** X13: In an existing checkout everything update_repo_once does to the
    checkout and to the installed packages (fetch, reset, pip, the write of
    .req.hash) is done with the lock held; the first-run path clones and
    installs with no lock at all. *)
Theorem lock_covers_all_but_the_clone cfg o s :
  guarded is_mutation false
    (trace (GitEntrypoint.update_repo_once cfg false o s))
  = git_dir s || String.eqb (GitEntrypoint.REPO_URL cfg) "".
Proof.
  runG. destruct (String.eqb (GitEntrypoint.REPO_URL cfg) ""); cbn.
  - now rewrite Bool.orb_true_r.
  - rewrite Bool.orb_false_r. destruct (git_dir s); cbn; cases; reflexivity.
Qed.

Lemma update_repo_once_bracketed cfg o s :
  bracketed false (trace (GitEntrypoint.update_repo_once cfg false o s)) = true.
Proof. runG. cases; reflexivity. Qed.

Lemma bracketed_app p : forall b q,
  bracketed b (p ++ q) = true -> bracketed (Locking.holds b p) q = true.
Proof.
  induction p as [|e p IH]; intros b q H; [exact H|].
  destruct e; cbn in *; try (apply IH; exact H).
  - apply Bool.andb_true_iff in H. apply IH, H.
  - apply Bool.andb_true_iff in H. apply IH, H.
Qed.

Lemma holder_inside_step s s' :
  holder_inside s -> Locking.step s s' -> holder_inside s'.
Proof.
  intros [Il Ir] Hstep.
  destruct Hstep as [h h' e pl tdl pr tdr He | h h' e pl tdl pr tdr He];
    unfold holder_inside in *; cbn in *; rewrite holds_app; cbn.
  - destruct e; cbn in *; try (injection He as <-; now split).
    + destruct h as [x|]; [discriminate|]. injection He as <-.
      split; [reflexivity|discriminate].
    + destruct h as [[|]|]; cbn in He; injection He as <-;
        split; try discriminate. exact Ir.
  - destruct e; cbn in *; try (injection He as <-; now split).
    + destruct h as [x|]; [discriminate|]. injection He as <-.
      split; [discriminate|reflexivity].
    + destruct h as [[|]|]; cbn in He; injection He as <-;
        split; try discriminate. exact Il.
Qed.

Lemma holder_inside_reachable tl tr s :
  Locking.reachable tl tr s -> holder_inside s.
Proof.
  unfold Locking.reachable. induction 1 as [|y z Hstep _ IH].
  - split; discriminate.
  - eapply holder_inside_step; eauto.
Qed.

Lemma can_move_inside me h e rest :
  bracketed true (e :: rest) = true ->
  h = Some me ->
  exists h', Locking.lock_step me h e = Some h'.
Proof.
  intros Hb ->. destruct e; cbn in *; try (eexists; reflexivity).
  - discriminate.
  - rewrite Bool.eqb_reflx. eexists; reflexivity.
Qed.

Lemma can_move_free me e :
  exists h', Locking.lock_step me None e = Some h'.
Proof. destruct e; cbn; eexists; reflexivity. Qed.

(** X14: Two runs of update_repo_once on the same lock file cannot get stuck: in
    every state they can reach, either both have finished and the lock is
    free, or one of them can take its next step. *)
Theorem shared_lock_never_deadlocks cfg1 o1 s1 cfg2 o2 s2 sys :
  let tl := trace (GitEntrypoint.update_repo_once cfg1 false o1 s1) in
  let tr := trace (GitEntrypoint.update_repo_once cfg2 false o2 s2) in
  Locking.reachable tl tr sys ->
  (Locking.todo_l sys = [] /\ Locking.todo_r sys = [] /\
   Locking.holder sys = None) \/
  (exists me sys', Locking.move me sys = Some sys').
Proof.
  intros tl tr Hreach.
  destruct (lock_invariant_reachable _ _ _ Hreach) as (Hl & Hr & _ & _).
  destruct (holder_inside_reachable _ _ _ Hreach) as [Jl Jr].
  pose proof (update_repo_once_bracketed cfg1 o1 s1) as Bl.
  pose proof (update_repo_once_bracketed cfg2 o2 s2) as Br.
  fold tl in Bl. fold tr in Br. rewrite <- Hl in Bl. rewrite <- Hr in Br.
  apply bracketed_app in Bl, Br.
  destruct sys as [h pl tdl pr tdr]. cbn in *.
  destruct h as [[|]|].
  - rewrite (Jl eq_refl) in Bl. right. exists true.
    destruct tdl as [|e tdl]; [discriminate|].
    destruct (can_move_inside true (Some true) e tdl Bl eq_refl) as [h' E].
    unfold Locking.move. cbn. rewrite E. eexists; reflexivity.
  - rewrite (Jr eq_refl) in Br. right. exists false.
    destruct tdr as [|e tdr]; [discriminate|].
    destruct (can_move_inside false (Some false) e tdr Br eq_refl) as [h' E].
    unfold Locking.move. cbn. rewrite E. eexists; reflexivity.
  - destruct tdl as [|e tdl].
    + destruct tdr as [|e tdr]; [left; auto|].
      right. exists false. destruct (can_move_free false e) as [h' E].
      unfold Locking.move. cbn. rewrite E. eexists; reflexivity.
    + right. exists true. destruct (can_move_free true e) as [h' E].
      unfold Locking.move. cbn. rewrite E. eexists; reflexivity.
Qed.

Lemma shared_lock_never_deadlocks_witness :
  let tl := trace (GitEntrypoint.update_repo_once demo_entry false
                     (quiet "def456") demo_state) in
  let tr := trace (GitEntrypoint.update_repo_once demo_entry false
                     (quiet "abc123") demo_state) in
  let sys := Locking.mkSystem (Some false) [] tl
               [Flock; GitSetUrl] [GitFetch true; Funlock] in
  Locking.schedule [false; false] (Locking.start tl tr) = Some sys /\
  Locking.move true sys = None /\
  ((Locking.todo_l sys = [] /\ Locking.todo_r sys = [] /\
    Locking.holder sys = None) \/
   (exists me sys', Locking.move me sys = Some sys')).
Proof.
  intros tl tr sys.
  split; [reflexivity|]. split; [reflexivity|].
  apply (shared_lock_never_deadlocks demo_entry (quiet "def456") demo_state
           demo_entry (quiet "abc123") demo_state sys).
  apply (schedule_reachable _ _ [false; false]
           (Locking.start tl tr) sys); [constructor 1|reflexivity].
Defined.

(** ** A reset that fails *)





(** * The formatters of the dashboard *)

Module RealmFacts.

Import ZArith QArith Qround DecimalString Ascii.
Import Realm.
Local Open Scope Z_scope.

(** ** humanMs *)

Lemma append_nonempty (a b : string) : b <> "" -> a +++ b <> "".
Proof.
  destruct a as [|c a]; cbn; [auto|discriminate].
Qed.

Lemma parts_of_nonempty d h m s :
  Forall (fun p => p <> "") (parts_of d h m s).
Proof.
  unfold parts_of.
  destruct (d =? 0), (h =? 0), (m =? 0), (s =? 0); cbn;
    repeat constructor; apply append_nonempty; discriminate.
Qed.

Lemma join_cons_nonempty sep p l : p <> "" -> join sep (p :: l) <> "".
Proof.
  intros Hp. destruct l as [|q l]; cbn [join]; [exact Hp|].
  destruct p as [|c p]; [contradiction|]. cbn. discriminate.
Qed.

Lemma split_units q r b a :
  0 <= r < b -> a = b * q + r -> a / b = q /\ a mod b = r.
Proof.
  intros Hr ->. split.
  - symmetry. apply (Z.div_unique _ _ q r); [left; exact Hr|reflexivity].
  - symmetry. apply (Z.mod_unique _ _ q r); [left; exact Hr|reflexivity].
Qed.

Lemma humanMs_split d h m s r :
  0 <= d -> 0 <= h < 24 -> 0 <= m < 60 -> 0 <= s < 60 -> 0 <= r < 1000 ->
  0 < 1000 * (86400 * d + 3600 * h + 60 * m + s) + r ->
  humanMs (number (1000 * (86400 * d + 3600 * h + 60 * m + s) + r))
  = match parts_of d h m s with
    | [] => "0с"
    | p => join " " p
    end.
Proof.
  intros Hd Hh Hm Hs Hr Hpos. unfold humanMs.
  set (ms := 1000 * (86400 * d + 3600 * h + 60 * m + s) + r) in *.
  replace (ms =? 0) with false by (symmetry; apply Z.eqb_neq; lia).
  replace (ms <? 0) with false by (symmetry; apply Z.ltb_ge; lia).
  cbn [orb].
  destruct (split_units (86400 * d + 3600 * h + 60 * m + s) r 1000 ms Hr
              eq_refl) as [E1 _].
  rewrite E1.
  destruct (split_units d (3600 * h + 60 * m + s) 86400
              (86400 * d + 3600 * h + 60 * m + s)) as [E2 E3]; [lia|lia|].
  rewrite E2, E3.
  destruct (split_units h (60 * m + s) 3600 (3600 * h + 60 * m + s))
    as [E4 E5]; [lia|lia|].
  rewrite E4, E5.
  destruct (split_units m s 60 (60 * m + s)) as [E6 E7]; [lia|lia|].
  rewrite E6, E7. cbv zeta.
  pose proof (parts_of_nonempty d h m s) as Hne.
  destruct (parts_of d h m s) as [|p l]; [reflexivity|].
  inversion Hne as [|? ? Hp _]; subst.
  destruct (String.eqb_spec (join " " (p :: l)) "") as [E|_]; [|reflexivity].
  exfalso. exact (join_cons_nonempty " " p l Hp E).
Qed.

(** X17: humanMs drops the milliseconds and writes the whole seconds in days,
    hours, minutes and seconds, leaving out the components that are 0: for a
    positive duration below 2^53 ms made of d days, h < 24 hours, m < 60
    minutes, s < 60 seconds and r < 1000 milliseconds the text is the
    non-zero ones among d, h, m, s in decimal, each followed by its unit
    letter, separated by blanks, and "0с" when all four are 0. *)
Theorem humanMs_components d h m s r :
  0 <= d -> 0 <= h < 24 -> 0 <= m < 60 -> 0 <= s < 60 -> 0 <= r < 1000 ->
  0 < 1000 * (86400 * d + 3600 * h + 60 * m + s) + r < 2 ^ 53 ->
  let nonzero :=
    filter (fun c => negb (fst c =? 0))
           [(d, "д"); (h, "ч"); (m, "м"); (s, "с")] in
  humanMs (number (1000 * (86400 * d + 3600 * h + 60 * m + s) + r))
  = match nonzero with
    | [] => "0с"
    | _ => String.concat " "
             (map (fun c => NilZero.string_of_int (Z.to_int (fst c))
                            +++ snd c) nonzero)
    end.
Proof.
  intros Hd Hh Hm Hs Hr [Hpos _]. cbv zeta.
  rewrite (humanMs_split d h m s r Hd Hh Hm Hs Hr Hpos).
  unfold parts_of, to_string. cbn [filter fst snd].
  destruct (d =? 0), (h =? 0), (m =? 0), (s =? 0); reflexivity.
Qed.

Lemma humanMs_components_witness :
  let nonzero :=
    filter (fun c => negb (fst c =? 0))
           [(2, "д"); (0, "ч"); (5, "м"); (7, "с")] in
  humanMs (number (1000 * (86400 * 2 + 3600 * 0 + 60 * 5 + 7) + 999))
  = match nonzero with
    | [] => "0с"
    | _ => String.concat " "
             (map (fun c => NilZero.string_of_int (Z.to_int (fst c))
                            +++ snd c) nonzero)
    end.
Proof.
  apply (humanMs_components 2 0 5 7 999); lia.
Defined.

(** The spelled-out text of that duration. *)
Example humanMs_sample :
  humanMs (number 173107999) = "2д 5м 7с".
Proof. reflexivity. Qed.

(** X18: humanMs shows a dash for a missing value, for 0 and for negative
    values, but "0с" for a positive duration shorter than a second. *)
Theorem humanMs_edges z z' :
  z <= 0 -> 0 < z' < 1000 ->
  humanMs missing = dash /\
  humanMs (number z) = dash /\
  humanMs (number z') = "0с".
Proof.
  intros Hz Hz'. split; [reflexivity|]. split.
  - unfold humanMs. destruct (Z.eqb_spec z 0) as [|Hne]; [reflexivity|].
    replace (z <? 0) with true by (symmetry; apply Z.ltb_lt; lia).
    reflexivity.
  - unfold humanMs.
    replace (z' =? 0) with false by (symmetry; apply Z.eqb_neq; lia).
    replace (z' <? 0) with false by (symmetry; apply Z.ltb_ge; lia).
    rewrite (Z.div_small z' 1000) by lia. reflexivity.
Qed.

Lemma humanMs_edges_witness :
  humanMs missing = dash /\
  humanMs (number (-5)) = dash /\
  humanMs (number 999) = "0с".
Proof. apply (humanMs_edges (-5) 999); lia. Defined.


(** ** bytesFmt *)

Lemma ge_1024 (n : Z) (d : positive) :
  Qle_bool (1024 # 1) (n # d) = (1024 * Zpos d <=? n).
Proof. unfold Qle_bool. cbn [Qnum Qden]. now rewrite Z.mul_1_r. Qed.

Lemma div_1024 (n : Z) (d : positive) :
  ((n # d) / (1024 # 1))%Q = (n * 1) # (d * 1024).
Proof. reflexivity. Qed.

Lemma tenths_frac (n : Z) (d : positive) :
  tenths (n # d) = (n * 10 * 2 + Zpos (d * 1)) / Zpos (d * 1 * 2).
Proof. unfold tenths. cbn. reflexivity. Qed.

Ltac leb_decide :=
  repeat match goal with
         | |- context [?a <=? ?b] =>
             first [ replace (a <=? b) with true
                       by (symmetry; apply Z.leb_le; lia)
                   | replace (a <=? b) with false
                       by (symmetry; apply Z.leb_gt; lia) ]
         end.

Ltac pow_eval :=
  repeat match goal with
         | |- context [1024 ^ Z.of_nat ?k] =>
             let x := eval vm_compute in (1024 ^ Z.of_nat k) in
             change (1024 ^ Z.of_nat k) with x
         | H : context [1024 ^ Z.of_nat ?k] |- _ =>
             let x := eval vm_compute in (1024 ^ Z.of_nat k) in
             change (1024 ^ Z.of_nat k) with x in H
         end.

Lemma bytesFmt_closed_form v k :
  0 <= v -> (k <= 4)%nat ->
  (k = 0%nat \/ 1024 ^ Z.of_nat k <= v) ->
  (k = 4%nat \/ v < 1024 ^ Z.of_nat (S k)) ->
  bytesFmt (number v)
  = show_tenths ((20 * v + 1024 ^ Z.of_nat k) / (2 * 1024 ^ Z.of_nat k))
    +++ " " +++ nth k units "".
Proof.
  intros Hv Hk Hlo Hhi. unfold bytesFmt.
  replace (v <? 0) with false by (symmetry; apply Z.ltb_ge; lia).
  unfold inject_Z. cbn [scale].
  repeat (rewrite ge_1024 || rewrite div_1024).
  destruct k as [|[|[|[|[|k]]]]]; try lia;
    (destruct Hlo as [Hlo|Hlo]; [try discriminate|]);
    (destruct Hhi as [Hhi|Hhi]; [try discriminate|]);
    pow_eval; leb_decide; unfold toFixed1; rewrite ?tenths_frac;
    cbn [nth units]; do 2 f_equal;
    repeat match goal with
           | |- context [Z.pos ?p] =>
               let x := eval vm_compute in p in
               progress change (Z.pos p) with (Z.pos x)
           end;
    f_equal; lia.
Qed.

(** X19: bytesFmt writes a byte count in the largest unit it reaches, up to TB
    and with steps of 1024, rounded to one decimal, halves upwards: for a
    count v below 2^53, between 1024^k and 1024^(k+1) (no lower bound for
    k = 0, and for k = 4 up to 2^53) the text is v / 1024^k to the nearest
    tenth, followed by the k-th unit. *)
Theorem bytesFmt_unit_and_rounding v k :
  0 <= v < 2 ^ 53 -> (k <= 4)%nat ->
  (k = 0%nat \/ 1024 ^ Z.of_nat k <= v) ->
  (k = 4%nat \/ v < 1024 ^ Z.of_nat (S k)) ->
  bytesFmt (number v)
  = show_tenths ((20 * v + 1024 ^ Z.of_nat k) / (2 * 1024 ^ Z.of_nat k))
    +++ " " +++ nth k units "".
Proof.
  intros [Hv _] Hk Hlo Hhi. unfold bytesFmt.
  replace (v <? 0) with false by (symmetry; apply Z.ltb_ge; lia).
  unfold inject_Z. cbn [scale].
  repeat (rewrite ge_1024 || rewrite div_1024).
  destruct k as [|[|[|[|[|k]]]]]; try lia;
    (destruct Hlo as [Hlo|Hlo]; [try discriminate|]);
    (destruct Hhi as [Hhi|Hhi]; [try discriminate|]);
    pow_eval; leb_decide; unfold toFixed1; rewrite ?tenths_frac;
    cbn [nth units]; do 2 f_equal;
    repeat match goal with
           | |- context [Z.pos ?p] =>
               let x := eval vm_compute in p in
               progress change (Z.pos p) with (Z.pos x)
           end;
    f_equal; lia.
Qed.

Lemma bytesFmt_unit_and_rounding_witness :
  bytesFmt (number 1536)
  = show_tenths ((20 * 1536 + 1024 ^ Z.of_nat 1) / (2 * 1024 ^ Z.of_nat 1))
    +++ " " +++ nth 1 units "".
Proof.
  apply (bytesFmt_unit_and_rounding 1536 1); lia.
Defined.

Example bytesFmt_samples :
  bytesFmt (number 1536) = "1.5 KB" /\
  bytesFmt (number 0) = "0.0 B" /\
  bytesFmt (number 5368709120) = "5.0 GB" /\
  bytesFmt (number (-1)) = dash /\
  bytesFmt missing = dash.
Proof. repeat split; reflexivity. Qed.

(** X20: Because the unit is chosen before the rounding, a count just below the
    next power of 1024 is written as 1024.0 of the smaller unit: from
    1024^(k+1) - 1024^k / 20 up to 1024^(k+1) - 1 the text is "1024.0"
    followed by the k-th unit. *)
Theorem bytesFmt_rounds_after_choosing_unit v k :
  (k <= 3)%nat ->
  v < 1024 ^ Z.of_nat (S k) ->
  20 * 1024 ^ Z.of_nat (S k) <= 20 * v + 1024 ^ Z.of_nat k ->
  bytesFmt (number v) = "1024.0 " +++ nth k units "".
Proof.
  intros Hk Hhi Hlo.
  assert (Hv : 0 <= v /\ 1024 ^ Z.of_nat k <= v).
  { destruct k as [|[|[|[|k]]]]; try lia; pow_eval; lia. }
  rewrite (bytesFmt_closed_form v k) by (first [lia | right; lia]).
  assert (E : (20 * v + 1024 ^ Z.of_nat k) / (2 * 1024 ^ Z.of_nat k) = 10240).
  { symmetry.
    apply (Z.div_unique _ _ 10240
             (20 * v + 1024 ^ Z.of_nat k
              - 10240 * (2 * 1024 ^ Z.of_nat k)));
      destruct k as [|[|[|[|k]]]]; try lia; pow_eval; lia. }
  rewrite E. reflexivity.
Qed.

Lemma bytesFmt_rounds_after_choosing_unit_witness :
  bytesFmt (number 1048575) = "1024.0 " +++ nth 1 units "".
Proof.
  apply (bytesFmt_rounds_after_choosing_unit 1048575 1).
  - lia.
  - vm_compute. reflexivity.
  - vm_compute. discriminate.
Defined.

(** ** The series of TPS readings *)

Lemma lastn_short {T} n (l : list T) : (length l <= n)%nat -> lastn n l = l.
Proof.
  intros H. unfold lastn. replace (length l - n)%nat with 0%nat by lia.
  reflexivity.
Qed.

Lemma lastn_length {T} n (l : list T) :
  length (lastn n l) = Nat.min n (length l).
Proof. unfold lastn. rewrite length_skipn. lia. Qed.

Lemma skipn_snoc {T} k (l : list T) x :
  (k <= length l)%nat -> skipn k (l ++ [x]) = skipn k l ++ [x].
Proof.
  revert k. induction l as [|y l IH]; intros k Hk.
  - cbn in Hk. replace k with 0%nat by lia. reflexivity.
  - destruct k as [|k]; [reflexivity|]. cbn in *. apply IH. lia.
Qed.

Lemma tl_skipn {T} k (l : list T) : tl (skipn k l) = skipn (S k) l.
Proof.
  revert k. induction l as [|y l IH]; intros k.
  - destruct k; reflexivity.
  - destruct k as [|k]; [reflexivity|]. cbn [skipn]. apply IH.
Qed.

Lemma push_lastn {T} (x : T) (xs : list T) :
  push_tps (Some x) (lastn 60 xs) = lastn 60 (xs ++ [x]).
Proof.
  unfold push_tps.
  destruct (Nat.ltb_spec 60 (length (lastn 60 xs ++ [x]))) as [H|H];
    rewrite length_app, lastn_length in H; cbn [length] in H.
  - assert (Hlen : (60 <= length xs)%nat) by lia.
    unfold lastn. rewrite length_app. cbn [length].
    replace (length xs + 1 - 60)%nat with (S (length xs - 60)) by lia.
    rewrite <- skipn_snoc by lia.
    apply tl_skipn.
  - assert (Hlen : (length xs < 60)%nat) by lia.
    rewrite (lastn_short 60 xs) by lia.
    rewrite lastn_short; [reflexivity|].
    rewrite length_app. cbn. lia.
Qed.

Lemma series_fold {T} (readings : list (option T)) : forall seen,
  fold_left (fun series r => push_tps r series) readings (lastn 60 seen)
  = lastn 60 (seen ++ numeric readings).
Proof.
  induction readings as [|r rest IH]; intros seen; cbn.
  - now rewrite app_nil_r.
  - destruct r as [x|].
    + rewrite push_lastn, IH, <- app_assoc. reflexivity.
    + cbn. apply IH.
Qed.

(** X21: The series drawn as sparkline is a window on the readings: whatever
    readings the successive calls of render bring, tpsSeries holds the last
    60 numeric ones, in order (all of them while there are fewer), and so
    never more than 60 entries; readings that are not numbers leave it
    alone. *)
Theorem tps_series_is_last_60 {T} (readings : list (option T)) :
  series_after readings = lastn 60 (numeric readings) /\
  (length (series_after readings) <= 60)%nat /\
  length (series_after readings)
  = Nat.min 60 (length (numeric readings)).
Proof.
  assert (E : series_after readings = lastn 60 (numeric readings)).
  { unfold series_after. exact (series_fold readings []). }
  rewrite E, lastn_length. repeat split; lia.
Qed.

(** ** The cells of the CSV export *)

Lemma append_cancel_r (a b s : string) : a +++ s = b +++ s -> a = b.
Proof.
  revert b. induction a as [|c a IH]; intros b H.
  - destruct b as [|c b]; [reflexivity|]. exfalso.
    apply (f_equal String.length) in H.
    rewrite !length_append in H. cbn in H. lia.
  - destruct b as [|c' b].
    + exfalso. apply (f_equal String.length) in H.
      rewrite !length_append in H. cbn in H. lia.
    + change (String c (a +++ s) = String c' (b +++ s)) in H.
      injection H as -> H. f_equal. now apply IH.
Qed.

Lemma double_quotes_inj a : forall b,
  double_quotes a = double_quotes b -> a = b.
Proof.
  induction a as [|c a IH]; intros b H.
  - destruct b as [|c' b]; [reflexivity|]. cbn in H.
    destruct (Ascii.eqb c' dq); discriminate.
  - destruct b as [|c' b]; cbn in H.
    + destruct (Ascii.eqb c dq); discriminate.
    + destruct (Ascii.eqb_spec c dq) as [->|Hc];
        destruct (Ascii.eqb_spec c' dq) as [->|Hc'].
      * injection H as H. f_equal. now apply IH.
      * injection H as H1 H2. subst c'.
        destruct b as [|c2 b]; cbn in H2; [discriminate|].
        contradiction.
      * injection H as H1 H2. subst c.
        contradiction.
      * injection H as -> H. f_equal. now apply IH.
Qed.

Lemma quotes_append a b : quotes (a +++ b) = (quotes a + quotes b)%nat.
Proof.
  induction a as [|c a IH]; [reflexivity|].
  change (String c a +++ b) with (String c (a +++ b)). cbn. rewrite IH. lia.
Qed.

Lemma quotes_double s : quotes (double_quotes s) = (2 * quotes s)%nat.
Proof.
  induction s as [|c s IH]; [reflexivity|]. cbn.
  destruct (Ascii.eqb c dq) eqn:E; cbn; rewrite ?E; cbn; lia.
Qed.

(** X22: The cell esc writes determines the text it was written from: two
    texts with the same cell are the same text.  A missing value gives the
    cell of the empty text, and a cell holds two more double quotes than
    twice those of its text, so always an even number. *)
Theorem csv_cell_determines_text a b v :
  esc (Some a) = esc (Some b) ->
  a = b /\
  esc None = esc (Some "") /\
  quotes (esc v)
  = (2 + 2 * quotes (match v with Some s => s | None => "" end))%nat.
Proof.
  intros H. split; [|split; [reflexivity|]].
  - unfold esc in H. injection H as H.
    apply append_cancel_r in H. now apply double_quotes_inj.
  - unfold esc. cbn [quotes]. rewrite ?Ascii.eqb_refl.
    rewrite quotes_append, quotes_double. cbn [quotes].
    rewrite ?Ascii.eqb_refl. lia.
Qed.

Lemma csv_cell_determines_text_witness :
  let said := String "s" (String dq (String "a" (String dq "")))  in
  said = said /\
  esc None = esc (Some "") /\
  quotes (esc (Some said))
  = (2 + 2 * quotes (match Some said with Some s => s | None => "" end))%nat.
Proof.
  intros said.
  apply (csv_cell_determines_text said said (Some said)). reflexivity.
Defined.

End RealmFacts.
